(** * pythresh: thresholding of outlier scores

    A model of the decision procedures of [pythresh.thresholds] and of the
    properties of their [eval] methods.  Scores are exact rationals; the
    values numpy derives from them (quotients whose divisor may vanish,
    quantiles outside their domain) live in [npfloat], which adds the two
    infinities and NaN with numpy's rules for them.  Rounding error is not
    modelled. *)

From Stdlib Require Import ZArith QArith Qabs Qround Qminmax List Bool Lia Lqa.
From Stdlib Require Import Permutation Sorted Orders Mergesort.
Import ListNotations.

Set Implicit Arguments.

(** ** Exceptions and results *)

Inductive exn : Set :=
| ValueError            (* numpy, sklearn: an argument outside the domain *)
| IndexError            (* an index outside the array *)
| ZeroDivisionError     (* a Python float divided by zero *)
| UnboundLocalError     (* a local read before any assignment *)
| DegenerateInputError. (* zero-range input to [normalize] *)

Inductive result (A : Type) : Type :=
| Ok (a : A)
| Raise (e : exn).

Arguments Ok {A} a.
Arguments Raise {A} e.

Definition rbind {A B} (c : result A) (k : A -> result B) : result B :=
  match c with
  | Ok a => k a
  | Raise e => Raise e
  end.

Declare Scope result_scope.
Delimit Scope result_scope with result.
Notation "x <- c ;; k" := (rbind c (fun x => k))
  (at level 61, c at next level, right associativity) : result_scope.
Notation "' pat <- c ;; k" := (rbind c (fun x => match x with pat => k end))
  (at level 61, pat pattern, c at next level, right associativity) : result_scope.

(** A method of an object: it reads and writes the instance and may raise;
    what was written before the exception stays written. *)

Definition method (S A : Type) : Type := S -> S * result A.

Definition mret {S A} (a : A) : method S A := fun s => (s, Ok a).
Definition mraise {S A} (e : exn) : method S A := fun s => (s, Raise e).
Definition mget {S} : method S S := fun s => (s, Ok s).
Definition mput {S} (s' : S) : method S unit := fun _ => (s', Ok tt).
Definition mlift {S A} (c : result A) : method S A := fun s => (s, c).
Definition mbind {S A B} (c : method S A) (k : A -> method S B) : method S B :=
  fun s => match c s with
           | (s', Ok a) => k a s'
           | (s', Raise e) => (s', Raise e)
           end.

Declare Scope method_scope.
Delimit Scope method_scope with method.
Notation "x <- c ;; k" := (mbind c (fun x => k))
  (at level 61, c at next level, right associativity) : method_scope.
Notation "c ;;; k" := (mbind c (fun _ => k))
  (at level 61, right associativity) : method_scope.

(** ** Rational helpers *)

Definition Qltb (a b : Q) : bool := negb (Qle_bool b a).

Definition Qofnat (n : nat) : Q := inject_Z (Z.of_nat n).

Definition Qsum (l : list Q) : Q := fold_right Qplus 0%Q l.

(** ** numpy's float64, without rounding *)

Inductive npfloat : Type :=
| Fin (q : Q)
| Inf (negative : bool)
| NaN.

Coercion Fin : Q >-> npfloat.

Definition Qneg (q : Q) : bool := Qltb q 0.
Definition Qzero (q : Q) : bool := Qeq_bool q 0.

Definition np_add (a b : npfloat) : npfloat :=
  match a, b with
  | NaN, _ | _, NaN => NaN
  | Fin x, Fin y => Fin (x + y)
  | Fin _, Inf s | Inf s, Fin _ => Inf s
  | Inf s, Inf s' => if Bool.eqb s s' then Inf s else NaN
  end.

Definition np_neg (a : npfloat) : npfloat :=
  match a with
  | Fin x => Fin (- x)
  | Inf s => Inf (negb s)
  | NaN => NaN
  end.

Definition np_sub (a b : npfloat) : npfloat := np_add a (np_neg b).

Definition np_mul (a b : npfloat) : npfloat :=
  match a, b with
  | NaN, _ | _, NaN => NaN
  | Fin x, Fin y => Fin (x * y)
  | Fin x, Inf s | Inf s, Fin x =>
      if Qzero x then NaN else Inf (xorb s (Qneg x))
  | Inf s, Inf s' => Inf (xorb s s')
  end.

(** Division as numpy performs it: a warning, never an exception. *)
Definition np_div (a b : npfloat) : npfloat :=
  match a, b with
  | NaN, _ | _, NaN => NaN
  | Fin x, Fin y =>
      if Qzero y then (if Qzero x then NaN else Inf (Qneg x))
      else Fin (x / y)
  | Fin _, Inf _ => Fin 0
  | Inf s, Fin y => Inf (xorb s (Qneg y))
  | Inf _, Inf _ => NaN
  end.

Definition np_abs (a : npfloat) : npfloat :=
  match a with
  | Fin x => Fin (Qabs x)
  | Inf _ => Inf false
  | NaN => NaN
  end.

Definition np_square (a : npfloat) : npfloat := np_mul a a.

(** Comparisons with NaN are false. *)
Definition np_gtb (a b : npfloat) : bool :=
  match a, b with
  | NaN, _ | _, NaN => false
  | Fin x, Fin y => Qltb y x
  | Fin _, Inf s => s
  | Inf s, Fin _ => negb s
  | Inf s, Inf s' => negb s && s'
  end.

Definition np_ltb (a b : npfloat) : bool := np_gtb b a.

(** The library routines with no rational closed form.  They are the
    program's environment: every statement below holds whatever values they
    return, unless it names what it needs of them. *)
Class Numeric : Type := {
  qsqrt : Q -> Q;               (* np.sqrt at a finite argument >= 0 *)
  t_ppf : Q -> Z -> npfloat;    (* scipy.stats.t.ppf(q, df) *)
  norm_ppf : Q -> npfloat;      (* scipy.stats.norm.ppf(q) *)
  erfc : npfloat -> npfloat;    (* scipy.special.erfc *)
  gmean : list Q -> npfloat     (* scipy.stats.gmean *)
}.

Definition np_sqrt {N : Numeric} (a : npfloat) : npfloat :=
  match a with
  | Fin x => if Qneg x then NaN else Fin (qsqrt x)
  | Inf false => Inf false
  | Inf true => NaN
  | NaN => NaN
  end.

(** ** Arrays *)

(** The order [np.sort] sorts by. *)
Module QOrder <: TotalLeBool.
Definition t := Q.
Definition leb := Qle_bool.
Lemma leb_total : forall a1 a2, leb a1 a2 = true \/ leb a2 a1 = true.
Proof.
  intros a b. unfold leb. destruct (Qlt_le_dec a b) as [H | H].
  - left. apply Qle_bool_iff. apply Qlt_le_weak. exact H.
  - right. apply Qle_bool_iff. exact H.
Qed.
End QOrder.

Module QSort := Sort QOrder.

Section Arrays.
Context {N : Numeric}.
Local Open Scope Q_scope.

(** [x.min()], [x.max()] of a non-empty array given by head and tail. *)
Definition qmin (x0 : Q) (xs : list Q) : Q := fold_left Qmin xs x0.
Definition qmax (x0 : Q) (xs : list Q) : Q := fold_left Qmax xs x0.

(** [np.min], [np.max] of an array of floats: NaN wins. *)
Definition np_min2 (a b : npfloat) : npfloat :=
  match a, b with
  | NaN, _ | _, NaN => NaN
  | _, _ => if np_ltb b a then b else a
  end.
Definition np_max2 (a b : npfloat) : npfloat :=
  match a, b with
  | NaN, _ | _, NaN => NaN
  | _, _ => if np_gtb b a then b else a
  end.
Definition np_min (l : list npfloat) : result npfloat :=
  match l with
  | [] => Raise ValueError
  | a :: l' => Ok (fold_left np_min2 l' a)
  end.
Definition np_max (l : list npfloat) : result npfloat :=
  match l with
  | [] => Raise ValueError
  | a :: l' => Ok (fold_left np_max2 l' a)
  end.

(** [x.mean()] of a non-empty array. *)
Definition qmean (x : list Q) : Q := Qsum x / Qofnat (length x).

(** [x.std()]: the population deviation, [sqrt(mean(|x - mean|^2))]. *)
Definition qvar (x : list Q) : Q :=
  let m := qmean x in qmean (map (fun v => (v - m) * (v - m)) x).
Definition std (x : list Q) : Q := qsqrt (qvar x).

(** [np.sort]. *)
Definition sort (l : list Q) : list Q := QSort.sort l.

(** [np.median]: the middle element, or the mean of the two middle ones. *)
Definition median (x : list Q) : Q :=
  let s := sort x in
  let n := length s in
  if Nat.even n
  then (nth (n / 2 - 1) s 0 + nth (n / 2) s 0) / 2
  else nth (n / 2) s 0.

(** [range(len)], counted from [start]. *)
Fixpoint zrange (start : Z) (len : nat) : list Z :=
  match len with
  | O => []
  | S len' => start :: zrange (start + 1) len'
  end.

(** [np.linspace(lo, hi, num)]: [lo + i * step] with
    [step = (hi - lo) / (num - 1)]. *)
Definition linspace (lo hi : Q) (num : nat) : list Q :=
  let step := (hi - lo) / Qofnat (num - 1) in
  map (fun i => lo + inject_Z i * step) (zrange 0 num).

(** [np.round], Python's [round]: to the nearest integer, halves to the
    even one. *)
Definition round_half_even (q : Q) : Z :=
  let f := Qfloor q in
  let r := q - inject_Z f in
  if Qltb r (1 # 2) then f
  else if Qltb (1 # 2) r then (f + 1)%Z
  else if Z.even f then f else (f + 1)%Z.

(** [np.argmax]: the first index holding the greatest value. *)
Fixpoint argmax_from (best : Q) (ibest i : nat) (l : list Q) : nat :=
  match l with
  | [] => ibest
  | v :: l' =>
      if Qltb best v then argmax_from v i (S i) l'
      else argmax_from best ibest (S i) l'
  end.
Definition argmax (l : list Q) : nat :=
  match l with
  | [] => O
  | v :: l' => argmax_from v O 1 l'
  end.

(** [np.delete(arr, i)] for an index inside the array. *)
Fixpoint delete (l : list Q) (i : nat) : list Q :=
  match l, i with
  | [], _ => []
  | _ :: l', O => l'
  | v :: l', S i' => v :: delete l' i'
  end.

(** sklearn's [check_array(decision, ensure_2d=False)] on a list of finite
    numbers: it asks for at least one sample. *)
Definition check_array (decision : list Q) : result (list Q) :=
  match decision with
  | [] => Raise ValueError
  | _ => Ok decision
  end.

(** Modelled from the spec: [thresh_utility.normalize] is not among the
    source files.  Spec 4.1: [y_i = (x_i - min x) / (max x - min x)], and
    it "fails with a DegenerateInputError when max(x) == min(x)".  The
    minimum of an empty array has no value. *)
Definition normalize (x : list Q) : result (list Q) :=
  match x with
  | [] => Raise ValueError
  | x0 :: xs =>
      let lo := qmin x0 xs in
      let hi := qmax x0 xs in
      if Qeq_bool hi lo then Raise DegenerateInputError
      else Ok (map (fun v => (v - lo) / (hi - lo)) x)
  end.

(** Modelled from the spec: [thresh_utility.cut] is not among the source
    files.  Spec 4.3: [labels_i = 1 if scores_i > limit else 0], strictly
    greater-than. *)
Definition cut (scores : list npfloat) (limit : npfloat) : list Z :=
  map (fun s => if np_gtb s limit then 1%Z else 0%Z) scores.

(** [cut] on an array of finite scores. *)
Definition cutq (scores : list Q) (limit : npfloat) : list Z :=
  cut (map Fin scores) limit.

(** Modelled from the spec: [thresh_utility.check_scores] is not among the
    source files.  Spec 4.4: "with a 1-D input it is a no-op pass-through
    after validation". *)
Definition check_scores (decision : list Q) (random_state : option Z)
  : result (list Q) := check_array decision.

End Arrays.

(** The number of outliers in a label vector, and the sum numpy takes. *)
Definition ones (labels : list Z) : nat := count_occ Z.eq_dec labels 1%Z.
Definition Zsum (l : list Z) : Z := fold_right Z.add 0%Z l.

(** The threshold an instance remembers: the attribute does not exist before
    the first call, and the structure-based procedures store [None]. *)
Inductive thresh : Type :=
| Unset
| PyNone
| Val (v : npfloat).

(** ** gesd.py: the generalized extreme studentized deviate test *)

Module GESD.
Section Model.
Context {N : Numeric}.
Local Open Scope Q_scope.

(** [max_outliers] is the string ['native'] or an integer. *)
Inductive cap : Type :=
| native
| outliers (k : Z).

Record t : Type := mk {
  max_outliers : cap;
  alpha : Q;
  thresh_ : thresh
}.

(** [GESD(max_outliers='native', alpha=0.05)] *)
Definition __init__ (max_outliers : cap) (alpha : Q) : t :=
  mk max_outliers alpha Unset.

Definition set_max_outliers (self : t) (c : cap) : t :=
  mk c (alpha self) (thresh_ self).
Definition set_thresh_ (self : t) (v : thresh) : t :=
  mk (max_outliers self) (alpha self) v.

(** Lines 80-86.  [np.argmax] refuses an empty array. *)
Definition _grubbs_stat (y : list Q) : result (npfloat * nat) :=
  match y with
  | [] => Raise ValueError
  | y0 :: ys =>
      let m := qmean y in
      let dev := fun v => Qabs (v - m) in
      let max_ind := argmax (map dev y) in
      let Gcal := np_div (Fin (qmax (dev y0) (map dev ys))) (Fin (std y)) in
      Ok (Gcal, max_ind)
  end.

(** Lines 88-95.  [alpha / (2 * size)] divides a Python float by a Python
    integer, which raises when the integer is zero. *)
Definition _calc_crit (size : nat) (alpha : Q) : result npfloat :=
  if Nat.eqb size 0 then Raise ZeroDivisionError
  else
    let sz := Qofnat size in
    let t_dist := t_ppf (1 - alpha / (2 * sz)) (Z.of_nat size - 2) in
    let numerator := np_mul (Fin (sz - 1)) (np_sqrt (np_square t_dist)) in
    let denominator :=
      np_mul (np_sqrt (Fin sz))
             (np_sqrt (np_add (Fin (sz - 2)) (np_square t_dist))) in
    Ok (np_div numerator denominator).

(** Lines 68-74: [k] rounds of the test on the working array. *)
Fixpoint loop (alpha : Q) (k : nat) (arr : list Q) (limit : Q) : result Q :=
  match k with
  | O => Ok limit
  | S k' =>
      (Gc <- _calc_crit (length arr) alpha ;;
       ' (Gs, max_index) <- _grubbs_stat arr ;;
       let v := nth max_index arr 0 in
       let limit' := if np_gtb Gs Gc && Qltb v limit then v else limit in
       loop alpha k' (delete arr max_index) limit')%result
  end.

(** Lines 57-78. *)
Definition eval (decision : list Q) : method t (list Z) :=
  (d <- mlift (rbind (check_array decision) normalize) ;;
   self <- mget ;;
   k <- match max_outliers self with
        | native =>
            let k := Z.of_nat (length d / 2) in
            mput (set_max_outliers self (outliers k)) ;;; mret k
        | outliers k => mret k
        end ;;
   limit <- mlift (loop (alpha self) (Z.to_nat k) d 1.1) ;;
   self <- mget ;;
   mput (set_thresh_ self (Val limit)) ;;;
   mret (cutq d limit))%method.

End Model.
End GESD.

(** ** mtt.py: the modified Thompson Tau test *)

Module MTT.
Section Model.
Context {N : Numeric}.
Local Open Scope Q_scope.

Record t : Type := mk {
  alpha : Q;
  thresh_ : thresh
}.

(** [MTT(alpha=0.99)] *)
Definition __init__ (alpha : Q) : t := mk alpha Unset.

Definition set_thresh_ (self : t) (v : thresh) : t := mk (alpha self) v.

(** Lines 79-81: the rejection threshold for [n] remaining points. *)
Definition thres (alpha : Q) (n : nat) : npfloat :=
  let t := t_ppf alpha (Z.of_nat n - 2) in
  let nq := Qofnat n in
  np_div (np_mul t (Fin (nq - 1)))
         (np_mul (np_sqrt (Fin nq))
                 (np_sqrt (np_add (Fin (nq - 2)) (np_square t)))).

(** Line 82.  [arr[-1]] refuses an empty array. *)
Definition delta (arr : list Q) : result npfloat :=
  match arr with
  | [] => Raise IndexError
  | _ => Ok (np_div (Fin (Qabs (last arr 0 - qmean arr))) (Fin (std arr)))
  end.

(** One pass through the body of the [while True] loop, lines 78-89:
    [Some (arr', limit')] when the largest element is rejected and removed,
    [None] at [break]. *)
Definition step (alpha : Q) (arr : list Q) : result (option (list Q * Q)) :=
  (let th := thres alpha (length arr) in
   d <- delta arr ;;
   if np_gtb d th then Ok (Some (removelast arr, last arr 0))
   else Ok None)%result.

(** The loop, cut off after [fuel] passes: [None] when it is still running
    then, else the working array and the limit at [break], or the
    exception. *)
Fixpoint loop (fuel : nat) (alpha : Q) (arr : list Q) (limit : Q)
  : option (result (list Q * Q)) :=
  match fuel with
  | O => None
  | S fuel' =>
      match step alpha arr with
      | Raise e => Some (Raise e)
      | Ok None => Some (Ok (arr, limit))
      | Ok (Some (arr', limit')) => loop fuel' alpha arr' limit'
      end
  end.

(** Lines 68-93; [None] when the loop has not ended within [fuel] passes. *)
Definition eval (fuel : nat) (decision : list Q) : method t (option (list Z)) :=
  (d <- mlift (rbind (check_array decision) normalize) ;;
   self <- mget ;;
   match loop fuel (alpha self) (sort d) 1.1 with
   | None => mret None
   | Some r =>
       al <- mlift r ;;
       mput (set_thresh_ self (Val (snd al))) ;;;
       mret (Some (cutq d (snd al)))
   end)%method.

End Model.
End MTT.

(** ** clust.py: clustering with an orientation rule *)

Module CLUST.

Inductive method_name : Type :=
| agg | birch | bang | bgm | bsas | dbscan | ema | kmeans
| mbsas | mshift | optics | somsc | spec | xmeans.

(** The pyclustering objects the procedure builds, with their arguments. *)
Inductive pyclustering : Type :=
| agglomerative (number_clusters link : Z)
| bang_ (levels : Z)
| bsas_ (maximum_clusters : Z) (threshold : Q)
| dbscan_ (eps : npfloat) (neighbors : nat)
| ema_ (amount_clusters : Z)
| mbsas_ (maximum_clusters : Z) (threshold : Q)
| optics_ (eps : npfloat) (minpts : nat) (amount_clusters : Z)
| somsc_ (amount_clusters : Z)
| xmeans_ (kmax : Z).

(** The sklearn estimators fitted through [_sklearn_eval]. *)
Inductive sklearn : Type :=
| Birch (n_clusters : Z) (threshold : npfloat)
| KMeans (n_clusters : Z)
| SpectralClustering (n_clusters : Z).

Record t : Type := mk {
  method_ : method_name;
  random_state : option Z;
  thresh_ : thresh
}.

(** [CLUST(method='spec', random_state=1234)] *)
Definition __init__ (m : method_name) (random_state : option Z) : t :=
  mk m random_state Unset.

Definition set_thresh_ (self : t) (v : thresh) : t :=
  mk (method_ self) (random_state self) v.

Section Model.
Context {N : Numeric}.
(** The clustering libraries: the clusters pyclustering reports after
    [process()], the labels an sklearn estimator holds after [fit], the
    mixture's [predict], and mean shift with its bandwidth estimate. *)
Variable get_clusters : pyclustering -> list Q -> list (list nat).
Variable labels_ : sklearn -> list Q -> list Z.
Variable bgm_predict : option Z -> list Q -> list Z.
Variable estimate_bandwidth : list Q -> option npfloat -> result npfloat.
Variable meanshift_labels : npfloat -> list Q -> list nat.
Local Open Scope Q_scope.

(** Lines 119-121 (and 131-133, 170-172): flip when the labels sum to more
    than [ceil(n / 2)]. *)
Definition half_up (n : nat) : Z := Z.of_nat ((n + 1) / 2).

Definition flip (labels : list Z) : list Z := map (fun l => (1 - l)%Z) labels.

Definition orient (n : nat) (labels : list Z) : list Z :=
  if (half_up n <? Zsum labels)%Z then flip labels else labels.

(** Lines 111-114.  [np.array(clusters, dtype=object)] is a matrix when all
    clusters have one length and a vector of lists otherwise; [squeeze]
    drops the axes of length one; [pred[0]] is a list only in the ragged
    case, where the first cluster is kept.  Indexing an empty or
    zero-dimensional array fails. *)
Definition rectangular (clusters : list (list nat)) : bool :=
  match clusters with
  | [] => true
  | c :: cs => forallb (fun c' => Nat.eqb (length c') (length c)) cs
  end.

Definition pred_of (clusters : list (list nat)) : result (list nat) :=
  match clusters with
  | [] => Raise IndexError
  | c :: cs =>
      if rectangular clusters then
        match cs, c with
        | [], [] | [], [_] => Raise IndexError
        | _, _ => Ok (concat clusters)
        end
      else Ok c
  end.

(** Line 117: [labels[pred] = 0]. *)
Fixpoint set_zero (labels : list Z) (i : nat) : list Z :=
  match labels, i with
  | [], _ => []
  | _ :: l', O => 0%Z :: l'
  | v :: l', S i' => v :: set_zero l' i'
  end.

Fixpoint assign_zero (labels : list Z) (pred : list nat) : result (list Z) :=
  match pred with
  | [] => Ok labels
  | i :: pred' =>
      if (i <? length labels)%nat then assign_zero (set_zero labels i) pred'
      else Raise IndexError
  end.

(** Lines 116-123, from the indices [pred] of the reference cluster. *)
Definition _pyclust_labels (pred : list nat) (decision : list Q)
  : result (list Z) :=
  (let n := length decision in
   labels <- assign_zero (repeat 1%Z n) pred ;;
   Ok (orient n labels))%result.

(** Lines 106-123. *)
Definition _pyclust_eval (cl : pyclustering) (decision : list Q)
  : result (list Z) :=
  (pred <- pred_of (get_clusters cl decision) ;;
   _pyclust_labels pred decision)%result.

(** Lines 125-135. *)
Definition _sklearn_eval (cl : sklearn) (decision : list Q) : list Z :=
  orient (length decision) (labels_ cl decision).

(** Lines 161-174. *)
Definition _BGM_clust (self : t) (decision : list Q) : list Z :=
  orient (length decision) (bgm_predict (random_state self) decision).

(** Lines 222-245.  [np.bincount(lbls).argmax()] is the first label among
    the most frequent ones. *)
Definition bincount (lbls : list nat) : list nat :=
  map (fun v => count_occ Nat.eq_dec lbls v) (seq 0 (S (list_max lbls))).

Fixpoint argmax_nat_from (best ibest i : nat) (l : list nat) : nat :=
  match l with
  | [] => ibest
  | v :: l' =>
      if (best <? v)%nat then argmax_nat_from v i (S i) l'
      else argmax_nat_from best ibest (S i) l'
  end.

Definition mode_of (lbls : list nat) : nat :=
  match bincount lbls with
  | [] => O
  | v :: l => argmax_nat_from v O 1 l
  end.

Definition _MSHIFT_clust (decision : list Q) : result (list Z) :=
  (let dat := decision in
   let cityblock :=
     Qsum (map (fun p => Qabs (fst p - snd p)) (combine dat (sort dat))) in
   let q := np_div (Fin cityblock) (Fin (Qsum dat)) in
   let q := if np_ltb 1 q then Fin 1 else q in
   bw <- match estimate_bandwidth decision (Some q) with
         | Raise ValueError => estimate_bandwidth decision None
         | r => r
         end ;;
   let lbls := meanshift_labels bw decision in
   let mode := mode_of lbls in
   Ok (map (fun l => if Nat.eqb l mode then 0%Z else 1%Z) lbls))%result.

Definition sqrt2 : npfloat := np_sqrt (Fin 2).

(** Lines 137-276: the table [method_funcs]. *)
Definition method_funcs (self : t) (decision : list Q) : result (list Z) :=
  let sd := std decision in
  let n := length decision in
  match method_ self with
  | agg => _pyclust_eval (agglomerative 2 2) decision
  | birch => Ok (_sklearn_eval (Birch 2 (np_div (Fin sd) sqrt2)) decision)
  | bang => _pyclust_eval (bang_ 8) decision
  | bgm => Ok (_BGM_clust self decision)
  | bsas => _pyclust_eval (bsas_ 2 sd) decision
  | dbscan =>
      _pyclust_eval (dbscan_ (np_div (Fin sd) sqrt2) (n / 2)) decision
  | ema => _pyclust_eval (ema_ 2) decision
  | kmeans => Ok (_sklearn_eval (KMeans 2) decision)
  | mbsas => _pyclust_eval (mbsas_ 2 sd) decision
  | mshift => _MSHIFT_clust decision
  | optics =>
      _pyclust_eval (optics_ (np_div (Fin sd) sqrt2) (n / 2) 1) decision
  | somsc => _pyclust_eval (somsc_ 2) decision
  | spec => Ok (_sklearn_eval (SpectralClustering 2) decision)
  | xmeans => _pyclust_eval (xmeans_ 2) decision
  end.

(** Lines 96-104. *)
Definition eval (decision : list Q) : method t (list Z) :=
  (d <- mlift (rbind (check_array decision) normalize) ;;
   self <- mget ;;
   labels <- mlift (method_funcs self d) ;;
   mput (set_thresh_ self PyNone) ;;;
   mret labels)%method.

End Model.
End CLUST.

(** ** A reference environment

    Rational stand-ins for the library routines, for running the
    procedures on concrete scores.  [sqrt6] is the square root to six
    decimals.  The Student quantile is NaN without degrees of freedom, as
    scipy returns it; it is the tabulated 0.99 quantile up to ten degrees
    of freedom, and otherwise the closed form for two degrees of freedom,
    [(2q - 1) / sqrt(2q(1 - q))], which is exact there.  The normal
    quantile is the rational approximation of the central region
    (Acklam), clamped to it.  [erfc] is its Maclaurin series, cut after
    forty terms and summed in fixed point, on arguments up to 3.  The geometric mean of an array
    holding a zero is zero. *)

Module Ref.
Local Open Scope Q_scope.

Definition round6 (q : Q) : Q :=
  Qred (inject_Z (Qnum q * 10 ^ 6 / Zpos (Qden q)) / inject_Z (10 ^ 6)).

Definition sqrt6 (q : Q) : Q :=
  Qred (inject_Z (Z.sqrt (Qnum q * 10 ^ 12 / Zpos (Qden q))) / inject_Z (10 ^ 6)).

Definition t99 : list Q :=
  [31.8205; 6.9646; 4.5407; 3.7469; 3.3649; 3.1427; 2.9980; 2.8965;
   2.8214; 2.7638].

Definition student_ppf (q : Q) (df : Z) : npfloat :=
  if (df <=? 0)%Z then NaN
  else if Qltb q 0 || Qltb 1 q then NaN
  else if Qeq_bool q 0.99 && (df <=? 10)%Z
       then Fin (nth (Z.to_nat (df - 1)) t99 0)
       else np_div (Fin (2 * q - 1)) (Fin (sqrt6 (2 * q * (1 - q)))).

Definition normal_ppf (p : Q) : npfloat :=
  if Qltb p 0 || Qltb 1 p then NaN
  else
    let p := Qmax 0.02425 (Qmin p 0.97575) in
    let q := p - 0.5 in
    let r := q * q in
    let num :=
      (((((-39.69683028665376 * r + 220.9460984245205) * r
          - 275.9285104469687) * r + 138.3577518672690) * r
        - 30.66479806614716) * r + 2.506628277459239) * q in
    let den :=
      ((((-54.47609879822406 * r + 161.5858368580409) * r
         - 155.6989798598866) * r + 66.80131188771972) * r
       - 13.28068155288572) * r + 1 in
    Fin (round6 (num / den)).

(** [sum_{k < terms} (-1)^k x^(2k+1) / (k! (2k+1))] in fixed point, fifteen
    decimals: [t] is the term [(-1)^k x^(2k+1) / k!] and [x2] the square of
    [x], both scaled by [10^15]. *)
Definition fix15 : Z := 10 ^ 15.

Fixpoint erf_series (terms : nat) (k t x2 acc : Z) : Z :=
  match terms with
  | O => acc
  | S terms' =>
      erf_series terms' (k + 1)%Z
                 (- (t * x2 / fix15) / (k + 1))%Z x2
                 (acc + t / (2 * k + 1))%Z
  end.

Definition erfc40 (a : npfloat) : npfloat :=
  match a with
  | NaN => NaN
  | Inf false => Fin 0
  | Inf true => Fin 2
  | Fin x =>
      if Qltb 3 x then Fin 0
      else if Qltb x (-3) then Fin 2
      else
        let xz := (Qnum x * fix15 / Zpos (Qden x))%Z in
        let s := erf_series 40 0 xz (xz * xz / fix15)%Z 0%Z in
        Fin (round6 (1 - 1.1283791670955126 * (inject_Z s / inject_Z fix15)))
  end.

Definition gmean0 (l : list Q) : npfloat :=
  if existsb (fun v => Qltb v 0) l then NaN
  else if existsb Qzero l then Fin 0
  else Fin (qmax 0 l).

Definition numeric : Numeric :=
  {| qsqrt := sqrt6; t_ppf := student_ppf; norm_ppf := normal_ppf;
     erfc := erfc40; gmean := gmean0 |}.

End Ref.

(** ** Example inputs *)

(** Nine scores at 0 and one at 100 (the spec's scenario A). *)
Definition scenario_A : list Q := [0; 0; 0; 0; 0; 0; 0; 0; 0; 100]%Q.

Definition scenario_A_normalized : list Q :=
  Eval vm_compute in
    match normalize scenario_A with Ok d => d | Raise _ => [] end.

(** One low score below three equal ones. *)
Definition one_low : list Q := [1; 5; 5; 5]%Q.

(** ** numpy's legacy generator

    [np.random.seed(s)] followed by [np.random.uniform(0, 1, n)]: the
    Mersenne Twister MT19937 seeded by [init_genrand], and doubles of 53
    bits made of two outputs each. *)

Module MT19937.
Local Open Scope Z_scope.

Definition w32 (x : Z) : Z := Z.land x 4294967295.

Fixpoint init_from (prev i : Z) (k : nat) : list Z :=
  match k with
  | O => []
  | S k' =>
      let v := w32 (1812433253 * Z.lxor prev (Z.shiftr prev 30) + i) in
      v :: init_from v (i + 1) k'
  end.

Definition init_genrand (s : Z) : list Z :=
  let s0 := w32 s in s0 :: init_from s0 1 623.

Definition mix (u l m : Z) : Z :=
  let y := Z.lor (Z.land u 2147483648) (Z.land l 2147483647) in
  Z.lxor (Z.lxor m (Z.shiftr y 1)) (if Z.odd y then 2567483615 else 0).

Fixpoint mix3 (us ls ms : list Z) : list Z :=
  match us, ls, ms with
  | u :: us', l :: ls', m :: ms' => mix u l m :: mix3 us' ls' ms'
  | _, _, _ => []
  end.

(** The next state of 624 words: word [k] is mixed from the old words [k]
    and [k + 1] and from word [k + 397], which is an old word for
    [k < 227] and a new one after. *)
Definition twist (st : list Z) : list Z :=
  let a := mix3 (firstn 227 st) (skipn 1 st) (skipn 397 st) in
  let b := mix3 (firstn 227 (skipn 227 st)) (skipn 228 st) a in
  let c := mix3 (firstn 169 (skipn 454 st)) (skipn 455 st) b in
  let z := mix (nth 623 st 0) (nth 0 a 0) (nth 169 b 0) in
  a ++ b ++ c ++ [z].

Definition temper (y : Z) : Z :=
  let y := Z.lxor y (Z.shiftr y 11) in
  let y := Z.lxor y (Z.land (Z.shiftl y 7) 2636928640) in
  let y := Z.lxor y (Z.land (Z.shiftl y 15) 4022730752) in
  Z.lxor y (Z.shiftr y 18).

Fixpoint outputs (blocks : nat) (st : list Z) : list Z :=
  match blocks with
  | O => []
  | S b => let st' := twist st in map temper st' ++ outputs b st'
  end.

Fixpoint doubles (l : list Z) : list Q :=
  match l with
  | a :: b :: l' =>
      (Z.shiftr a 5 * 67108864 + Z.shiftr b 6 # 9007199254740992)%Q
        :: doubles l'
  | _ => []
  end.

Definition uniform (seed : Z) (n : nat) : list Q :=
  firstn n (doubles (outputs (S (2 * n / 624)) (init_genrand seed))).

End MT19937.

(** ** eb.py: elliptical boundaries *)

Module EB.

Record t : Type := mk { thresh_ : thresh }.

Definition __init__ : t := mk Unset.

Section Model.
(** [np.random.seed(1234); rnd = np.random.uniform(0, 1, 5000)] *)
Variable rnd : list Q.
Local Open Scope Q_scope.

(** [a * (1 - e)] with [a = 1 / (1 + e)]. *)
Definition boundary (e : Q) : Q := let a := 1 / (1 + e) in a * (1 - e).

(** [len(decision) - np.sum(cut(decision, a * (1 - e)))] *)
Definition inliers (decision : list Q) (e : Q) : Z :=
  (Z.of_nat (length decision) - Zsum (cutq decision (Fin (boundary e))))%Z.

(** Lines 79-85: the inlier counts at the first [num] random
    eccentricities; [rnd[i]] fails past the end of [rnd]. *)
Definition sample_counts (num : nat) (decision : list Q) : result (list Z) :=
  if (length rnd <? num)%nat then Raise IndexError
  else Ok (map (inliers decision) (firstn num rnd)).

(** Line 88. *)
Definition median_count (counts : list Z) : Q :=
  inject_Z (round_half_even (median (map inject_Z counts))).

(** Lines 93-101.  The state is [close] and [limit], the latter unbound at
    first. *)
Definition closer (med : Q) (count close : Z) : bool :=
  Qltb (Qabs (med - inject_Z count)) (Qabs (med - inject_Z close)).

Definition scan_step (decision : list Q) (med : Q)
  (st : Z * option Q) (e : Q) : Z * option Q :=
  let count := inliers decision e in
  if closer med count (fst st) then (count, Some (boundary e)) else st.

Definition scan (decision : list Q) (med : Q) (ec : list Q) : Z * option Q :=
  fold_left (scan_step decision med) ec (0%Z, None).

Definition samples : nat := 5000.

(** Lines 75-88: the median count of expected inliers. *)
Definition phase1 (decision : list Q) : result Q :=
  (counts <- sample_counts samples decision ;;
   Ok (median_count counts))%result.

(** Lines 70-105. *)
Definition eval (decision : list Q) : method t (list Z) :=
  (d <- mlift (rbind (check_array decision) normalize) ;;
   med <- mlift (phase1 d) ;;
   let ec := linspace 0 1 samples in
   match snd (scan d med ec) with
   | None => mraise UnboundLocalError
   | Some limit =>
       mput (mk (Val (Fin limit))) ;;;
       mret (cutq d (Fin limit))
   end)%method.

End Model.
End EB.

(** ** aucp.py: area under the curve percentage *)

Module AUCP.

Record t : Type := mk { thresh_ : thresh }.

Definition __init__ : t := mk Unset.

Section Model.
(** The density estimate behind [thresh_utility.gen_kde]: the values of the
    fitted density of a sample at the points of a grid. *)
Variable density : list Q -> list Q -> list Q.
Local Open Scope Q_scope.

(** Modelled from the spec: [thresh_utility.gen_kde] is not among the
    source files.  Spec 4.2: [gen_kde(x, lo, hi, n_points)] is the density
    fitted to [x], "evaluated at n_points evenly spaced points across
    [lo, hi]", returned with the grid. *)
Definition gen_kde (x : list Q) (lo hi : Q) (n_points : nat)
  : list Q * list Q :=
  let grid := linspace lo hi n_points in (density x grid, grid).

(** [np.trapz(y, x)] *)
Fixpoint trapz (x y : list Q) : Q :=
  match x, y with
  | x0 :: ((x1 :: _) as x'), y0 :: ((y1 :: _) as y') =>
      (x1 - x0) * (y0 + y1) / 2 + trapz x' y'
  | _, _ => 0
  end.

(** [np.diff] *)
Fixpoint diff (x : list Q) : list Q :=
  match x with
  | x0 :: ((x1 :: _) as x') => (x1 - x0) :: diff x'
  | _ => []
  end.

(** [sklearn.metrics.auc(x, y)]: it refuses arrays of different lengths,
    fewer than two points, and an [x] that neither increases nor
    decreases. *)
Definition auc (x y : list Q) : result Q :=
  if negb (length x =? length y)%nat then Raise ValueError
  else if (length x <? 2)%nat then Raise ValueError
  else
    let dx := diff x in
    if existsb (fun v => Qltb v 0) dx then
      if forallb (fun v => Qle_bool v 0) dx then Ok (- trapz x y)
      else Raise ValueError
    else Ok (trapz x y).

(** Lines 88-96: the loop over the grid positions, on the part of the
    curve from position [i] on; [limit] keeps its initial 1 when the loop
    runs out of positions. *)
Fixpoint scan (dat_range val : list Q) (bound : Q) : result Q :=
  match dat_range with
  | [] => Ok 1
  | x :: dat_range' =>
      (splt_area <- auc dat_range val ;;
       if Qltb splt_area bound then Ok x
       else scan dat_range' (tl val) bound)%result
  end.

(** Lines 84-86. *)
Definition perc (decision : list Q) : Q :=
  let mean := qmean decision in
  mean + Qabs (mean - median decision).

(** Lines 71-101. *)
Definition eval (decision : list Q) : method t (list Z) :=
  (d <- mlift (rbind (check_array decision) normalize) ;;
   let (val, dat_range) := gen_kde d 0 1 (length d * 2) in
   val <- mlift (normalize val) ;;
   tot_area <- mlift (auc dat_range val) ;;
   limit <- mlift (scan dat_range val (perc d * tot_area)) ;;
   mput (mk (Val (Fin limit))) ;;;
   mret (cutq d (Fin limit)))%method.

End Model.
End AUCP.

(** ** chau.py: Chauvenet's criterion *)

Module CHAU.

(** ['mean'], ['median'], ['gmean'] *)
Inductive stat : Type := mean_ | median_ | gmean_.

Record t : Type := mk {
  method_ : stat;
  thresh_ : thresh
}.

(** [CHAU(method='mean')] *)
Definition __init__ (m : stat) : t := mk m Unset.

Definition set_thresh_ (self : t) (v : thresh) : t := mk (method_ self) v.

Section Model.
Context {N : Numeric}.
Local Open Scope Q_scope.

(** [self.method(decision)] *)
Definition center (m : stat) (decision : list Q) : npfloat :=
  match m with
  | mean_ => Fin (qmean decision)
  | median_ => Fin (median decision)
  | gmean_ => gmean decision
  end.

(** Lines 62-63: Chauvenet's criterion for one tail. *)
Definition criterion (n : nat) : npfloat :=
  let Pz := 1 / (4 * Qofnat n) in
  np_div (Fin 1) (np_abs (norm_ppf Pz)).

(** Line 66: the area normal to the distance. *)
Definition prob (m : stat) (decision : list Q) : list npfloat :=
  let c := center m decision in
  let sd := Fin (std decision) in
  map (fun v => erfc (np_div (np_abs (np_sub (Fin v) c)) sd)) decision.

(** Line 68. *)
Definition stored (crit mn mx : npfloat) : npfloat :=
  np_div (np_mul crit (np_sub (Fin 1) mn)) mx.

(** Lines 57-71. *)
Definition eval (decision : list Q) : method t (list Z) :=
  (d <- mlift (rbind (check_array decision) normalize) ;;
   self <- mget ;;
   let crit := criterion (length d) in
   let p := prob (method_ self) d in
   mn <- mlift (np_min p) ;;
   mx <- mlift (np_max p) ;;
   mput (set_thresh_ self (Val (stored crit mn mx))) ;;;
   mret (cut p crit))%method.

End Model.
End CHAU.

(** ** mad.py: median absolute deviation *)

Module MAD.

Record t : Type := mk { thresh_ : thresh }.

Definition __init__ : t := mk Unset.

Section Model.
Context {N : Numeric}.
Local Open Scope Q_scope.

(** [scipy.stats.median_abs_deviation(x, scale=s)]: the median of
    [|x - median(x)|], divided by [s]. *)
Definition median_abs_deviation (x : list Q) (scale : Q) : npfloat :=
  let m := median x in
  np_div (Fin (median (map (fun v => Qabs (v - m)) x))) (Fin scale).

(** Lines 67-78. *)
Definition eval (decision : list Q) : method t (list Z) :=
  (d <- mlift (rbind (check_array decision) normalize) ;;
   let mean := qmean d in
   let limit := np_add (Fin mean) (median_abs_deviation d (std d)) in
   mput (mk (Val limit)) ;;;
   mret (cutq d limit))%method.

End Model.
End MAD.

(** ** meta.py: the vote of a pretrained model *)

Module META.

(** ['LIN'], or anything else, which selects the naive Bayes model. *)
Inductive model_name : Type := LIN | GNB.

Record t : Type := mk {
  method_ : model_name;
  thresh_ : thresh
}.

(** [META(method='GNB')] *)
Definition __init__ (m : model_name) : t := mk m Unset.

Definition set_thresh_ (self : t) (v : thresh) : t := mk (method_ self) v.

Section Model.
(** [joblib.load] of the model file, and the loaded model's [predict] on the
    scores tagged with a group number. *)
Variable load : model_name -> result (list Q -> Z -> list Z).
Local Open Scope Q_scope.

(** [scipy.stats.mode] of one column: the smallest of the most frequent
    values. *)
Definition better (l : list Z) (a b : Z) : bool :=
  let ca := count_occ Z.eq_dec l a in
  let cb := count_occ Z.eq_dec l b in
  (cb <? ca)%nat || ((cb =? ca)%nat && (a <? b)%Z).

Definition mode (l : list Z) : Z :=
  match l with
  | [] => 0%Z
  | a :: l' => fold_left (fun best v => if better l v best then v else best) l' a
  end.

(** [stats.mode(contam, axis=0)], squeezed: the mode at each of the [n]
    positions; no row, no label. *)
Definition column_modes (contam : list (list Z)) (n : nat) : list Z :=
  match contam with
  | [] => []
  | _ => map (fun j => mode (map (fun row => nth j row 0%Z) contam)) (seq 0 n)
  end.

(** Lines 90-100: the label vectors whose outlier ratio lies strictly
    between 0 and one half. *)
Definition retained (predict : list Q -> Z -> list Z) (decision : list Q)
  : list (list Z) :=
  let counts := Qofnat (length decision) in
  filter (fun labels =>
            let outlier_ratio := np_div (Fin (inject_Z (Zsum labels))) (Fin counts) in
            np_ltb outlier_ratio (Fin 0.5) && np_gtb outlier_ratio (Fin 0))
         (map (predict decision) (zrange 0 380)).

(** Lines 79-108. *)
Definition eval (decision : list Q) : method t (list Z) :=
  (d <- mlift (rbind (check_array decision) normalize) ;;
   self <- mget ;;
   model <- mlift (load (method_ self)) ;;
   let contam := retained model d in
   let lbls := column_modes contam (length d) in
   mput (set_thresh_ self PyNone) ;;;
   mret lbls)%method.

End Model.
End META.

(** ** fwfm.py: full width at full minimum *)

Module FWFM.

Record t : Type := mk {
  random_state : option Z;
  thresh_ : thresh;
  dscores_ : option (list Q)
}.

(** [FWFM(random_state=1234)] *)
Definition __init__ (random_state : option Z) : t := mk random_state Unset None.

Section Model.
(** The density estimate of [gen_kde], and scipy's [find_peaks] with
    prominence 0.75 followed by the widths [peak_widths] measures at
    relative height 0.99. *)
Variable density : list Q -> list Q -> list Q.
Variable base_widths : list Q -> list npfloat.
Local Open Scope Q_scope.

(** Lines 61-82. *)
Definition eval (decision : list Q) : method t (list Z) :=
  (self <- mget ;;
   d <- mlift (rbind (check_scores decision (random_state self)) normalize) ;;
   mput (mk (random_state self) (thresh_ self) (Some d)) ;;;
   let (val, _) := AUCP.gen_kde density d (-1) 1 (length d * 3) in
   val <- mlift (normalize val) ;;
   let limit :=
     match base_widths val with
     | w :: _ => np_div w (Fin (Qofnat (length val)))
     | [] => Fin 1.1
     end in
   mput (mk (random_state self) (Val limit) (Some d)) ;;;
   mret (cutq d limit))%method.

End Model.
End FWFM.

(** ** moll.py: Friedrichs' mollifier *)

Module MOLL.

Record t : Type := mk { thresh_ : thresh }.

Definition __init__ : t := mk Unset.

Section Model.
(** Lines 59-105, [_mollifier(time, position)]: the smoothed curve, built
    with scipy's quadrature and convolution. *)
Variable _mollifier : list Q -> list Q -> list npfloat.
Local Open Scope Q_scope.

(** Lines 47-57. *)
Definition eval (decision : list Q) : method t (list Z) :=
  (decision <- mlift (check_array decision) ;;
   let dat_range := linspace 0 1 (length decision) in
   d <- mlift (normalize decision) ;;
   top <- mlift (np_max (_mollifier dat_range (sort d))) ;;
   let limit := np_sub (Fin 1) top in
   mput (mk (Val limit)) ;;;
   mret (cutq d limit))%method.

End Model.
End MOLL.

(** ** filter.py: filtering *)

Module FILTER.

Inductive method_name : Type :=
| gaussian | savgol | hilbert | wiener | medfilt | decimate | detrend
| resample.

(** [sigma] is the string ['auto'] or a number. *)
Inductive sigma_t : Type :=
| auto
| given (sig : Q).

(** The scipy calls, with their arguments. *)
Inductive scipy_filter : Type :=
| gaussian_filter (sigma : Q)
| savgol_filter (window_length polyorder : Z)
| hilbert_ (n : Z)
| wiener_ (mysize : nat)
| medfilt_ (kernel_size : Z)
| decimate_ (q : Z)
| detrend_ (bp : list Z)
| resample_ (num window : Z).

Record t : Type := mk {
  method_ : method_name;
  sigma : sigma_t;
  thresh_ : thresh
}.

(** [FILTER(method='wiener', sigma='auto')] *)
Definition __init__ (m : method_name) (sigma : sigma_t) : t := mk m sigma Unset.

Definition set_thresh_ (self : t) (v : thresh) : t :=
  mk (method_ self) (sigma self) v.

Section Model.
Context {N : Numeric}.
(** scipy's filters on the normalized scores; they may refuse their
    arguments. *)
Variable apply : scipy_filter -> list Q -> result (list npfloat).
Local Open Scope Q_scope.

Definition is_auto (s : sigma_t) : bool :=
  match s with auto => true | given _ => false end.

(** [sig % 2 == 0] on a float. *)
Definition even_float (sig : Q) : bool :=
  Qeq_bool sig (inject_Z (2 * Qfloor (sig / 2))).

(** Lines 97-154: the table [method_funcs]. *)
Definition method_funcs (self : t) (decision : list Q) (sig : Q)
  : result (list npfloat) :=
  match method_ self with
  | gaussian => apply (gaussian_filter sig) decision
  | savgol =>
      let sig := if is_auto (sigma self)
                 then inject_Z (round_half_even (0.5 * sig)) else sig in
      let sig := if even_float sig then sig + 1 else sig in
      apply (savgol_filter (round_half_even sig) 1) decision
  | hilbert => apply (hilbert_ (round_half_even sig)) decision
  | wiener => apply (wiener_ (length decision)) decision
  | medfilt =>
      let sig := round_half_even sig in
      let sig := if Z.even sig then (sig + 1)%Z else sig in
      apply (medfilt_ sig) decision
  | decimate => apply (decimate_ (round_half_even sig)) decision
  | detrend =>
      let bp := linspace 0 (Qofnat (length decision) - 1)
                         (Z.to_nat (round_half_even sig)) in
      apply (detrend_ (map Qfloor bp)) decision
  | resample =>
      let num := round_half_even (qsqrt (Qofnat (length decision))) in
      if is_auto (sigma self)
      then apply (resample_ num (round_half_even (qsqrt sig))) decision
      else apply (resample_ num (round_half_even sig)) decision
  end.

(** Lines 80-95. *)
Definition eval (decision : list Q) : method t (list Z) :=
  (d <- mlift (rbind (check_array decision) normalize) ;;
   self <- mget ;;
   let sig := match sigma self with
              | auto => Qofnat (length d) * std d
              | given s => s
              end in
   fltr <- mlift (method_funcs self d sig) ;;
   limit <- mlift (np_max fltr) ;;
   mput (set_thresh_ self (Val limit)) ;;;
   mret (cutq d limit))%method.

End Model.
End FILTER.

(** * Properties *)

(** ** Comparisons and the float rules *)

Lemma Qltb_lt a b : Qltb a b = true <-> (a < b)%Q.
Proof.
  unfold Qltb. rewrite negb_true_iff. split; intro H.
  - apply Qnot_le_lt. intro Hle. apply Qle_bool_iff in Hle. congruence.
  - destruct (Qle_bool b a) eqn:E; [|reflexivity].
    apply Qle_bool_iff in E. exfalso. exact (Qlt_not_le _ _ H E).
Qed.

Lemma Qltb_ge a b : Qltb a b = false <-> (b <= a)%Q.
Proof.
  unfold Qltb. rewrite negb_false_iff. apply Qle_bool_iff.
Qed.

Lemma np_gtb_nan_r a : np_gtb a NaN = false.
Proof. destruct a; reflexivity. Qed.

Lemma np_mul_nan_l a : np_mul NaN a = NaN.
Proof. reflexivity. Qed.

Lemma np_div_nan_l a : np_div NaN a = NaN.
Proof. reflexivity. Qed.

Lemma np_div_nan_r a : np_div a NaN = NaN.
Proof. destruct a; reflexivity. Qed.

Lemma np_div_zero_zero : np_div (Fin 0) (Fin 0) = NaN.
Proof. reflexivity. Qed.

(** ** Label vectors *)

Definition binary (l : Z) : Prop := l = 0%Z \/ l = 1%Z.

Lemma ones_cons v l :
  ones (v :: l) = ((if Z.eq_dec v 1 then 1 else 0) + ones l)%nat.
Proof.
  unfold ones. simpl. destruct (Z.eq_dec v 1); reflexivity.
Qed.

Lemma ones_le_length l : (ones l <= length l)%nat.
Proof. apply count_occ_bound. Qed.

Lemma Zsum_binary l : Forall binary l -> Zsum l = Z.of_nat (ones l).
Proof.
  induction 1 as [|v l Hv _ IH]; [reflexivity|].
  rewrite ones_cons. change (Zsum (v :: l)) with (v + Zsum l)%Z. rewrite IH.
  destruct Hv as [-> | ->]; destruct (Z.eq_dec _ 1); lia.
Qed.

Lemma flip_length l : length (CLUST.flip l) = length l.
Proof. apply length_map. Qed.

Lemma flip_binary l : Forall binary l -> Forall binary (CLUST.flip l).
Proof.
  unfold CLUST.flip. induction 1 as [|v l Hv _ IH]; simpl; constructor; auto.
  destruct Hv as [-> | ->]; [right | left]; reflexivity.
Qed.

Lemma ones_flip l :
  Forall binary l -> (ones (CLUST.flip l) + ones l = length l)%nat.
Proof.
  induction 1 as [|v l Hv _ IH]; [reflexivity|].
  unfold CLUST.flip in *. rewrite map_cons, !ones_cons. cbn [length].
  destruct Hv as [-> | ->]; repeat destruct (Z.eq_dec _ 1); lia.
Qed.

Lemma repeat_one_binary n : Forall binary (repeat 1%Z n).
Proof. induction n; simpl; constructor; auto. right; reflexivity. Qed.

Lemma set_zero_binary l i : Forall binary l -> Forall binary (CLUST.set_zero l i).
Proof.
  intros H. revert i. induction H as [|v l Hv Hl IH]; intros [|i]; simpl;
    try constructor; auto. left; reflexivity.
Qed.

Lemma set_zero_length l i : length (CLUST.set_zero l i) = length l.
Proof.
  revert i. induction l as [|v l IH]; intros [|i]; simpl; auto.
Qed.

Lemma assign_zero_ok pred : forall l r,
  Forall binary l -> CLUST.assign_zero l pred = Ok r ->
  Forall binary r /\ length r = length l.
Proof.
  induction pred as [|i pred IH]; simpl; intros l r Hl E.
  - inversion E; subst; auto.
  - destruct (i <? length l)%nat; [|discriminate].
    apply IH in E; [|apply set_zero_binary; assumption].
    rewrite set_zero_length in E. exact E.
Qed.

Lemma assign_zero_total pred : forall l,
  Forall (fun i => (i < length l)%nat) pred ->
  exists r, CLUST.assign_zero l pred = Ok r.
Proof.
  induction pred as [|i pred IH]; simpl; intros l H.
  - eauto.
  - inversion H as [|? ? Hi Hp]; subst.
    apply Nat.ltb_lt in Hi. rewrite Hi. apply IH.
    rewrite set_zero_length. assumption.
Qed.

(** The orientation rule on a vector of zeros and ones of length [n]: the
    result has at most [ceil(n/2)] ones, and when it flips fewer than
    [floor(n/2)]. *)
Lemma orient_bound n l :
  Forall binary l -> length l = n ->
  (ones (CLUST.orient n l) <= (n + 1) / 2)%nat /\
  ((CLUST.half_up n < Zsum l)%Z ->
     CLUST.orient n l = CLUST.flip l /\
     ones (CLUST.flip l) = (n - ones l)%nat /\
     (ones (CLUST.flip l) < n / 2)%nat).
Proof.
  intros Hb Hn. pose proof (ones_flip Hb) as Hf.
  pose proof (Zsum_binary Hb) as Hs.
  assert (Hh : (n = 2 * (n / 2) + n mod 2 /\ n mod 2 < 2)%nat).
  { split; [apply Nat.div_mod_eq | apply Nat.mod_upper_bound; lia]. }
  assert (Hc : ((n + 1) / 2 = n / 2 + n mod 2)%nat).
  { destruct Hh as [Hh Hm].
    assert (Hcase : (n mod 2 = 0 \/ n mod 2 = 1)%nat) by lia.
    destruct Hcase as [E | E]; rewrite E in *.
    - rewrite Hh at 1. replace (2 * (n / 2) + 0 + 1)%nat with (1 + (n / 2) * 2)%nat by lia.
      rewrite Nat.div_add by lia. simpl. lia.
    - rewrite Hh at 1. replace (2 * (n / 2) + 1 + 1)%nat with (0 + (n / 2 + 1) * 2)%nat by lia.
      rewrite Nat.div_add by lia. simpl. lia. }
  unfold CLUST.orient, CLUST.half_up. rewrite Hs, Hc.
  destruct (Z.ltb_spec (Z.of_nat (n / 2 + n mod 2)) (Z.of_nat (ones l))) as [Hlt | Hge].
  - split; [lia|]. intros _. repeat split; lia.
  - split; [lia|]. intros Hlt. lia.
Qed.

(** ** clust.py: how many points end up labelled 1 *)

Section ClustFacts.
Variable get_clusters : CLUST.pyclustering -> list Q -> list (list nat).
Variable labels_ : CLUST.sklearn -> list Q -> list Z.
Variable bgm_predict : option Z -> list Q -> list Z.

Lemma pyclust_labels_inv pred decision labels :
  CLUST._pyclust_labels pred decision = Ok labels ->
  exists pre, CLUST.assign_zero (repeat 1%Z (length decision)) pred = Ok pre /\
              Forall binary pre /\ length pre = length decision /\
              labels = CLUST.orient (length decision) pre.
Proof.
  unfold CLUST._pyclust_labels. intros E.
  destruct (CLUST.assign_zero _ pred) as [pre|e] eqn:Ea; simpl in E; [|discriminate].
  inversion E; subst. exists pre.
  destruct (assign_zero_ok _ (repeat_one_binary _) Ea) as [Hb Hl].
  rewrite repeat_length in Hl. auto.
Qed.

Lemma pyclust_labels_total pred decision :
  Forall (fun i => (i < length decision)%nat) pred ->
  exists labels, CLUST._pyclust_labels pred decision = Ok labels.
Proof.
  intros H. unfold CLUST._pyclust_labels.
  destruct (@assign_zero_total pred (repeat 1%Z (length decision))) as [r Hr].
  - rewrite repeat_length. exact H.
  - rewrite Hr. simpl. eauto.
Qed.

(** C9.  Whatever the backend, a label vector that comes back through
    [_pyclust_eval], [_sklearn_eval] or [_BGM_clust] for [n] scores has at
    most [ceil(n/2)] entries equal to 1; when the labels before the flip sum
    to more than [ceil(n/2)] they are flipped, and the [n - sum] ones that
    remain are fewer than [floor(n/2)].  The pyclustering path builds its
    zeros and ones itself and returns for every set of indices inside the
    array; the two sklearn paths are given cluster labels in [{0,1}], one
    per score. *)
Theorem clust_at_most_half_outliers (decision : list Q) :
  let n := length decision in
  let bounded (pre labels : list Z) :=
    (ones labels <= (n + 1) / 2)%nat /\
    ((CLUST.half_up n < Zsum pre)%Z ->
       labels = CLUST.flip pre /\ ones labels = (n - ones pre)%nat /\
       (ones labels < n / 2)%nat) in
  (forall cl labels,
      CLUST._pyclust_eval get_clusters cl decision = Ok labels ->
      exists pred pre,
        CLUST.pred_of (get_clusters cl decision) = Ok pred /\
        CLUST.assign_zero (repeat 1%Z n) pred = Ok pre /\
        bounded pre labels) /\
  (forall cl pred,
      CLUST.pred_of (get_clusters cl decision) = Ok pred ->
      Forall (fun i => (i < n)%nat) pred ->
      exists labels, CLUST._pyclust_eval get_clusters cl decision = Ok labels) /\
  (forall cl,
      Forall binary (labels_ cl decision) ->
      length (labels_ cl decision) = n ->
      bounded (labels_ cl decision) (CLUST._sklearn_eval labels_ cl decision)) /\
  (forall self,
      Forall binary (bgm_predict (CLUST.random_state self) decision) ->
      length (bgm_predict (CLUST.random_state self) decision) = n ->
      bounded (bgm_predict (CLUST.random_state self) decision)
              (CLUST._BGM_clust bgm_predict self decision)).
Proof.
  intros n bounded.
  assert (Hor : forall pre, Forall binary pre -> length pre = n ->
                            bounded pre (CLUST.orient n pre)).
  { intros pre Hb Hl. destruct (orient_bound Hb Hl) as [H1 H2].
    split; [exact H1|]. intros Hlt. destruct (H2 Hlt) as (E & E1 & E2).
    rewrite E. auto. }
  split; [|split; [|split]].
  - intros cl labels H. unfold CLUST._pyclust_eval in H.
    destruct (CLUST.pred_of _) as [pred|e] eqn:Ep; simpl in H; [|discriminate].
    destruct (pyclust_labels_inv _ _ H) as (pre & Ea & Hb & Hl & ->).
    exists pred, pre. repeat split; auto; apply Hor; auto.
  - intros cl pred Ep Hin. unfold CLUST._pyclust_eval. rewrite Ep. simpl.
    apply pyclust_labels_total. exact Hin.
  - intros cl Hb Hl. apply Hor; assumption.
  - intros self Hb Hl. apply Hor; assumption.
Qed.

End ClustFacts.

(** Labels that follow the scores: 1 above one half. *)
Definition upper_half_labels (_ : CLUST.sklearn) (d : list Q) : list Z :=
  map (fun v => if Qltb (1 # 2) v then 1%Z else 0%Z) d.

Lemma clust_at_most_half_outliers_witness :
  CLUST._sklearn_eval upper_half_labels (CLUST.KMeans 2) [0; 1; 1; 1]%Q
    = [1; 0; 0; 0]%Z /\
  (ones (CLUST._sklearn_eval upper_half_labels (CLUST.KMeans 2) [0; 1; 1; 1]%Q)
     < 4 / 2)%nat.
Proof.
  pose proof (clust_at_most_half_outliers
                (fun _ _ => []) upper_half_labels (fun _ _ => [])
                [0; 1; 1; 1]%Q) as H.
  cbv zeta in H. destruct H as (_ & _ & H & _).
  assert (Hb : Forall binary (upper_half_labels (CLUST.KMeans 2) [0; 1; 1; 1]%Q)).
  { vm_compute. repeat constructor; (left; reflexivity) || (right; reflexivity). }
  destruct (H (CLUST.KMeans 2) Hb eq_refl) as [_ H'].
  destruct H' as (E & _ & Hlt); [vm_compute; reflexivity|].
  split; [exact E | exact Hlt].
Defined.

(** With an odd number of scores, a group of exactly [ceil(n/2)] points
    labelled 1 is not flipped. *)
Lemma orient_keeps_bare_majority n labels :
  Forall binary labels -> length labels = n -> Nat.odd n = true ->
  ones labels = ((n + 1) / 2)%nat ->
  CLUST.orient n labels = labels /\ (n - ones labels < ones labels)%nat.
Proof.
  intros Hb Hl Hodd Hc. unfold CLUST.orient, CLUST.half_up.
  rewrite (Zsum_binary Hb), Hc, Z.ltb_irrefl. split; [reflexivity|].
  destruct (Nat.odd_spec n) as [Ho _]. destruct (Ho Hodd) as [k Hk].
  rewrite Hk. replace (2 * k + 1 + 1)%nat with (0 + (k + 1) * 2)%nat by lia.
  rewrite Nat.div_add by lia. simpl. lia.
Qed.

(** C2 (the code departs from the claim).  Five scores, three of them in
    the group labelled 1: the sum 3 does not exceed [ceil(5/2) = 3], so no
    path flips, and the larger group stays labelled outlier.  The sklearn
    path is run on the estimator's labels [1,1,1,0,0]; the pyclustering path
    on a reference cluster holding the points 3 and 4. *)
Theorem clust_bare_majority_stays_outlier :
  let decision := [0; 1 # 4; 1 # 2; 3 # 4; 1]%Q in
  let labels_ := fun (_ : CLUST.sklearn) (_ : list Q) => [1; 1; 1; 0; 0]%Z in
  let sk := CLUST._sklearn_eval labels_ (CLUST.SpectralClustering 2) decision in
  let py := CLUST._pyclust_labels [3; 4]%nat decision in
  sk = [1; 1; 1; 0; 0]%Z /\ py = Ok [1; 1; 1; 0; 0]%Z /\
  ones sk = 3%nat /\ count_occ Z.eq_dec sk 0%Z = 2%nat.
Proof. vm_compute. repeat split. Qed.

(** ** Sorting and normalizing keep the length *)

Lemma sort_perm l : Permutation l (sort l).
Proof. apply QSort.Permuted_sort. Qed.

Lemma sort_length l : length (sort l) = length l.
Proof. symmetry. apply Permutation_length. apply sort_perm. Qed.

Lemma normalize_length x d : normalize x = Ok d -> length d = length x.
Proof.
  destruct x as [|x0 xs]; simpl; [discriminate|].
  destruct (Qeq_bool _ _); [discriminate|].
  intros E. inversion E; subst. simpl. rewrite length_map. reflexivity.
Qed.

Lemma checked_normalize_inv x d :
  rbind (check_array x) normalize = Ok d -> normalize x = Ok d /\ x <> [].
Proof.
  destruct x as [|x0 xs]; simpl; [discriminate|].
  intros E. split; [exact E | discriminate].
Qed.

Lemma removelast_length {A} (l : list A) :
  l <> [] -> S (length (removelast l)) = length l.
Proof.
  destruct l as [|a l]; [congruence|]. intros _.
  rewrite (@app_removelast_last _ (a :: l) a) at 2 by discriminate.
  rewrite length_app. simpl. lia.
Qed.

(** ** mtt.py: the rejection loop *)

Section MttFacts.
Context {N : Numeric}.
(** scipy's quantile of a Student distribution without degrees of freedom
    is NaN. *)
Hypothesis t_ppf_no_df : forall q df, (df <= 0)%Z -> t_ppf q df = NaN.

Lemma mtt_thres_nan alpha n : (n <= 2)%nat -> MTT.thres alpha n = NaN.
Proof.
  intros H. unfold MTT.thres. rewrite t_ppf_no_df by lia. reflexivity.
Qed.

Lemma mtt_step_cases alpha arr :
  arr <> [] ->
  MTT.step alpha arr = Ok None \/
  MTT.step alpha arr = Ok (Some (removelast arr, last arr 0%Q)).
Proof.
  intros H. unfold MTT.step, MTT.delta.
  destruct arr as [|a arr]; [congruence|]. simpl rbind.
  destruct (np_gtb _ _); auto.
Qed.

Lemma mtt_step_short alpha arr :
  arr <> [] -> (length arr <= 2)%nat -> MTT.step alpha arr = Ok None.
Proof.
  intros H Hl. unfold MTT.step, MTT.delta.
  destruct arr as [|a arr]; [congruence|]. simpl rbind.
  rewrite mtt_thres_nan by exact Hl. rewrite np_gtb_nan_r. reflexivity.
Qed.

(** Fuel for as many passes as the array has elements is enough, and more
    fuel changes nothing. *)
Lemma mtt_loop_enough alpha : forall fuel arr limit,
  (2 <= length arr <= fuel)%nat ->
  exists arr' limit',
    MTT.loop fuel alpha arr limit = Some (Ok (arr', limit')) /\
    (2 <= length arr' <= length arr)%nat /\
    arr' = firstn (length arr') arr.
Proof.
  induction fuel as [|fuel IH]; intros arr limit [H2 Hf]; [lia|].
  assert (Hne : arr <> []) by (destruct arr; simpl in H2; [lia | discriminate]).
  simpl. destruct (mtt_step_cases alpha Hne) as [E | E]; rewrite E.
  - exists arr, limit. split; [reflexivity|]. split; [lia|].
    symmetry. apply firstn_all.
  - assert (H3 : (3 <= length arr)%nat).
    { destruct (le_lt_dec (length arr) 2) as [Hs | Hs]; [|lia].
      rewrite (mtt_step_short alpha Hne Hs) in E. discriminate. }
    pose proof (removelast_length Hne) as Hr.
    destruct (IH (removelast arr) (last arr 0%Q)) as (arr' & limit' & El & Hl & Hp);
      [lia|].
    exists arr', limit'. split; [exact El|]. split; [lia|].
    rewrite Hp at 1. rewrite removelast_firstn_len, firstn_firstn.
    f_equal. lia.
Qed.

Lemma mtt_loop_mono alpha : forall fuel arr limit r,
  MTT.loop fuel alpha arr limit = Some r ->
  forall fuel', (fuel <= fuel')%nat -> MTT.loop fuel' alpha arr limit = Some r.
Proof.
  induction fuel as [|fuel IH]; intros arr limit r E fuel' Hf; [discriminate|].
  destruct fuel' as [|fuel']; [lia|]. simpl in *.
  destruct (MTT.step alpha arr) as [[[a l]|]|e]; try exact E.
  apply IH with (1 := E). lia.
Qed.

(** The loop on any working array of at least two elements. *)
Lemma mtt_loop_bound alpha (arr : list Q) (limit : Q) :
  (2 <= length arr)%nat ->
  (forall a, a <> [] ->
     MTT.step alpha a = Ok None \/
     (MTT.step alpha a = Ok (Some (removelast a, last a 0%Q)) /\
      S (length (removelast a)) = length a)) /\
  (forall a, a <> [] -> (length a <= 2)%nat -> MTT.step alpha a = Ok None) /\
  exists arr' limit' removed,
    (forall fuel, (length arr <= fuel)%nat ->
       MTT.loop fuel alpha arr limit = Some (Ok (arr', limit'))) /\
    (length arr' + removed = length arr)%nat /\
    (removed <= length arr - 1)%nat /\
    arr' <> [] /\ (2 <= length arr')%nat.
Proof.
  intros Hn. split; [|split].
  - intros a Ha. destruct (mtt_step_cases alpha Ha) as [E | E]; [left; exact E|].
    right. split; [exact E | apply removelast_length; exact Ha].
  - intros a Ha Hl. apply mtt_step_short; assumption.
  - destruct (@mtt_loop_enough alpha (length arr) arr limit) as (arr' & limit' & E & Hl & _);
      [lia|].
    exists arr', limit', (length arr - length arr')%nat.
    split; [|split; [lia | split; [lia | split; [|lia]]]].
    + intros fuel Hf. exact (mtt_loop_mono _ _ _ E Hf).
    + intros ->. simpl in Hl. lia.
Qed.

(** C10.  With scipy's NaN for a quantile without degrees of freedom, the
    [while True] loop of [MTT.eval] ends for every valid input of [n >= 2]
    scores: a pass either breaks or removes exactly the last element of the
    sorted working array; on an array of two or fewer elements the
    comparison is false and the pass breaks; so [n] passes always reach
    [break] and [eval] returns its labels, after at most [n - 1] removals,
    on a working array that is never empty. *)
Theorem mtt_loop_terminates (self : MTT.t) (decision d : list Q) :
  rbind (check_array decision) normalize = Ok d ->
  (2 <= length decision)%nat ->
  let n := length decision in
  let alpha := MTT.alpha self in
  (forall a, a <> [] ->
     MTT.step alpha a = Ok None \/
     (MTT.step alpha a = Ok (Some (removelast a, last a 0%Q)) /\
      S (length (removelast a)) = length a)) /\
  (forall a, a <> [] -> (length a <= 2)%nat -> MTT.step alpha a = Ok None) /\
  exists arr' limit' removed,
    (forall fuel, (n <= fuel)%nat ->
       MTT.loop fuel alpha (sort d) 1.1%Q = Some (Ok (arr', limit')) /\
       MTT.eval fuel decision self =
         (MTT.set_thresh_ self (Val limit'), Ok (Some (cutq d limit')))) /\
    (length arr' + removed = n)%nat /\
    (removed <= n - 1)%nat /\
    arr' <> [].
Proof.
  intros Ed Hn n alpha.
  assert (Hl : length (sort d) = n).
  { rewrite sort_length. apply normalize_length.
    apply checked_normalize_inv. exact Ed. }
  destruct (@mtt_loop_bound alpha (sort d) 1.1%Q) as (H1 & H2 & arr' & limit' & removed & Hf & Hs & Hr & Hne & _);
    [rewrite Hl; exact Hn|].
  split; [exact H1|]. split; [exact H2|].
  exists arr', limit', removed. rewrite Hl in *.
  split; [|auto].
  intros fuel Hfuel. specialize (Hf fuel Hfuel). split; [exact Hf|].
  unfold MTT.eval, mbind, mlift, mget, mput, mret. rewrite Ed.
  fold alpha. rewrite Hf. reflexivity.
Qed.

End MttFacts.

(** ** gesd.py: what [eval] does to the instance *)

Section GesdFacts.
Context {N : Numeric}.

(** On a valid input a fresh instance leaves [eval] with [max_outliers]
    rewritten to half the length of that input, whether or not the loop
    raises. *)
Lemma gesd_eval_native alpha th decision d :
  rbind (check_array decision) normalize = Ok d ->
  let k := Z.of_nat (length decision / 2) in
  GESD.eval decision (GESD.mk GESD.native alpha th) =
    match GESD.loop alpha (Z.to_nat k) d 1.1%Q with
    | Ok limit =>
        (GESD.mk (GESD.outliers k) alpha (Val limit), Ok (cutq d limit))
    | Raise e => (GESD.mk (GESD.outliers k) alpha th, Raise e)
    end.
Proof.
  intros Ed k. unfold GESD.eval, mbind, mlift, mget, mput, mret. rewrite Ed.
  simpl. rewrite (normalize_length decision (proj1 (checked_normalize_inv decision Ed))).
  fold k. destruct (GESD.loop _ _ _ _); reflexivity.
Qed.

Lemma gesd_eval_capped k alpha th decision d :
  rbind (check_array decision) normalize = Ok d ->
  GESD.eval decision (GESD.mk (GESD.outliers k) alpha th) =
    match GESD.loop alpha (Z.to_nat k) d 1.1%Q with
    | Ok limit =>
        (GESD.mk (GESD.outliers k) alpha (Val limit), Ok (cutq d limit))
    | Raise e => (GESD.mk (GESD.outliers k) alpha th, Raise e)
    end.
Proof.
  intros Ed. unfold GESD.eval, mbind, mlift, mget, mput, mret. rewrite Ed.
  simpl. destruct (GESD.loop _ _ _ _); reflexivity.
Qed.

Lemma argmax_from_lt l : forall best ibest i,
  (ibest < i)%nat -> (argmax_from best ibest i l < i + length l)%nat.
Proof.
  induction l as [|v l IH]; simpl; intros best ibest i H; [lia|].
  destruct (Qltb best v).
  - specialize (IH v i (S i)). lia.
  - specialize (IH best ibest (S i)). lia.
Qed.

Lemma argmax_lt l : l <> [] -> (argmax l < length l)%nat.
Proof.
  destruct l as [|v l]; [congruence|]. intros _. simpl.
  pose proof (@argmax_from_lt l v 0%nat 1%nat). lia.
Qed.

Lemma delete_length l : forall i,
  (i < length l)%nat -> S (length (delete l i)) = length l.
Proof.
  induction l as [|v l IH]; simpl; intros i H; [lia|].
  destruct i as [|i]; [reflexivity|]. simpl. rewrite IH by lia. reflexivity.
Qed.

(** One round removes one element of a non-empty working array. *)
Lemma gesd_round alpha k arr limit :
  arr <> [] ->
  exists i limit',
    (i < length arr)%nat /\
    GESD.loop alpha (S k) arr limit = GESD.loop alpha k (delete arr i) limit'.
Proof.
  intros Hne. destruct arr as [|a arr]; [congruence|].
  cbn [GESD.loop]. unfold GESD._calc_crit.
  cbn [length Nat.eqb rbind GESD._grubbs_stat].
  eexists _, _. split; [|reflexivity].
  rewrite <- (length_map (fun v => Qabs (v - qmean (a :: arr)))).
  apply argmax_lt. discriminate.
Qed.

(** More rounds than elements: the round after the last removal divides by
    the size zero. *)
Lemma gesd_loop_overrun alpha : forall k arr limit,
  (length arr < k)%nat -> GESD.loop alpha k arr limit = Raise ZeroDivisionError.
Proof.
  induction k as [|k IH]; intros arr limit H; [lia|].
  destruct arr as [|a arr]; [reflexivity|].
  destruct (@gesd_round alpha k (a :: arr) limit) as (i & limit' & Hi & E);
    [discriminate|].
  rewrite E. apply IH. pose proof (delete_length _ Hi). lia.
Qed.

End GesdFacts.

(** C1 (the code departs from the claim).  [GESD.eval] rewrites the
    instance's [max_outliers]: a default instance, configured ['native'],
    leaves its first call on ten scores holding the integer 5, and the
    second call reads that 5 and not ['native'].  On four scores the stale
    cap runs the loop past the end of the working array, and the call that
    a fresh instance answers with labels raises instead. *)
Theorem gesd_eval_rewrites_max_outliers :
  let g0 := GESD.__init__ GESD.native 0.05 in
  let first := GESD.eval (N := Ref.numeric) scenario_A g0 in
  let second := GESD.eval (N := Ref.numeric) one_low (fst first) in
  GESD.max_outliers g0 = GESD.native /\
  GESD.max_outliers (fst first) = GESD.outliers 5 /\
  snd second = Raise ZeroDivisionError /\
  snd (GESD.eval (N := Ref.numeric) one_low g0) = Ok [0; 1; 1; 1]%Z.
Proof. vm_compute. repeat split. Qed.

(** C5 (the code departs from the claim).  [GESD] capped at one outlier,
    on one low score below three equal ones: the single round confirms the
    low score, the most deviant one, and the threshold drops to its value 0;
    the cut then flags the three scores above it, more than the cap. *)
Theorem gesd_flags_more_than_cap :
  let g := GESD.__init__ (GESD.outliers 1) 0.05 in
  let run := GESD.eval (N := Ref.numeric) one_low g in
  snd run = Ok [0; 1; 1; 1]%Z /\
  (exists limit, GESD.thresh_ (fst run) = Val (Fin limit) /\ (limit == 0)%Q) /\
  GESD.max_outliers (fst run) = GESD.outliers 1 /\
  (1 < ones [0; 1; 1; 1]%Z)%nat.
Proof.
  cbv zeta. split; [vm_compute; reflexivity|].
  split; [eexists; split; [vm_compute; reflexivity | reflexivity]|].
  split; [vm_compute; reflexivity | vm_compute; lia].
Qed.

Lemma ref_t_ppf_no_df q df :
  (df <= 0)%Z -> t_ppf (Numeric := Ref.numeric) q df = NaN.
Proof.
  intros H. simpl. unfold Ref.student_ppf.
  destruct (Z.leb_spec df 0); [reflexivity | lia].
Qed.

Lemma mtt_loop_terminates_witness :
  exists arr' limit' removed,
    (forall fuel, (10 <= fuel)%nat ->
       MTT.loop (N := Ref.numeric) fuel 0.99 (sort scenario_A_normalized) 1.1%Q
         = Some (Ok (arr', limit')) /\
       MTT.eval (N := Ref.numeric) fuel scenario_A (MTT.__init__ 0.99) =
         (MTT.set_thresh_ (MTT.__init__ 0.99) (Val limit'),
          Ok (Some (cutq scenario_A_normalized limit')))) /\
    (length arr' + removed = 10)%nat /\ (removed <= 10 - 1)%nat /\ arr' <> [].
Proof.
  refine (proj2 (proj2 (@mtt_loop_terminates Ref.numeric ref_t_ppf_no_df
                          (MTT.__init__ 0.99) scenario_A scenario_A_normalized _ _))).
  - vm_compute. reflexivity.
  - simpl. lia.
Defined.

(** ** eb.py: the scan over the eccentricities *)

Section EbFacts.
Variable rnd : list Q.
Variable decision : list Q.
Variable med : Q.

(** The distance of a candidate's inlier count to the median count, and
    that of the initial [close = 0]. *)
Definition eb_dist (e : Q) : Q := Qabs (med - inject_Z (EB.inliers decision e)).
Definition eb_dist_of (count : Z) : Q := Qabs (med - inject_Z count).

Lemma eb_scan_step_cases st e :
  (eb_dist e < eb_dist_of (fst st) /\
   EB.scan_step decision med st e =
     (EB.inliers decision e, Some (EB.boundary e))) \/
  (eb_dist_of (fst st) <= eb_dist e /\ EB.scan_step decision med st e = st).
Proof.
  unfold EB.scan_step, EB.closer, eb_dist, eb_dist_of.
  destruct (Qltb _ _) eqn:E.
  - left. split; [apply Qltb_lt; exact E | reflexivity].
  - right. split; [apply Qltb_ge; exact E | reflexivity].
Qed.

(** A left-to-right scan that replaces on strict improvement only ends on the
    first candidate of least distance, if one beats the initial state. *)
Lemma eb_scan_fold : forall ec st,
  let st' := fold_left (EB.scan_step decision med) ec st in
  (st' = st /\ forall e, In e ec -> eb_dist_of (fst st) <= eb_dist e) \/
  (exists i e,
     nth_error ec i = Some e /\
     st' = (EB.inliers decision e, Some (EB.boundary e)) /\
     eb_dist e < eb_dist_of (fst st) /\
     (forall j e', (j < i)%nat -> nth_error ec j = Some e' ->
                   eb_dist e < eb_dist e') /\
     (forall j e', (i < j)%nat -> nth_error ec j = Some e' ->
                   eb_dist e <= eb_dist e')).
Proof.
  induction ec as [|e0 ec IH]; intros st; cbn [fold_left].
  - left. split; [reflexivity | intros e []].
  - destruct (eb_scan_step_cases st e0) as [[Hlt E] | [Hge E]]; rewrite E.
    + destruct (IH (EB.inliers decision e0, Some (EB.boundary e0)))
        as [[Es Hall] | (i & e & Hn & Es & Hb & Hbefore & Hafter)].
      * right. exists 0%nat, e0. split; [reflexivity|]. split; [exact Es|].
        split; [exact Hlt|]. split; [intros j e' Hj; lia|].
        intros [|j] e' Hj Hn; [lia|]. apply Hall.
        apply nth_error_In with (n := j). exact Hn.
      * right. exists (S i), e. split; [exact Hn|]. split; [exact Es|].
        cbn [fst] in Hb. fold (eb_dist e0) in Hb.
        split; [eapply Qlt_trans; eassumption|]. split.
        -- intros [|j] e' Hj Hn'.
           ++ cbn in Hn'. inversion Hn'; subst. exact Hb.
           ++ apply (Hbefore j); [lia | exact Hn'].
        -- intros [|j] e' Hj Hn'; [lia|]. apply (Hafter j); [lia | exact Hn'].
    + destruct (IH st) as [[Es Hall] | (i & e & Hn & Es & Hb & Hbefore & Hafter)].
      * left. split; [exact Es|]. intros e [<- | Hin]; [exact Hge | auto].
      * right. exists (S i), e. split; [exact Hn|]. split; [exact Es|].
        split; [exact Hb|]. split.
        -- intros [|j] e' Hj Hn'.
           ++ cbn in Hn'. inversion Hn'; subst.
              eapply Qlt_le_trans; eassumption.
           ++ apply (Hbefore j); [lia | exact Hn'].
        -- intros [|j] e' Hj Hn'; [lia|]. apply (Hafter j); [lia | exact Hn'].
Qed.

End EbFacts.

Lemma zrange_nth len : forall start i,
  (i < len)%nat -> nth_error (zrange start len) i = Some (start + Z.of_nat i)%Z.
Proof.
  induction len as [|len IH]; intros start i H; [lia|].
  destruct i as [|i]; cbn [zrange nth_error].
  - f_equal. lia.
  - rewrite IH by lia. f_equal. lia.
Qed.

Lemma zrange_length len : forall start, length (zrange start len) = len.
Proof.
  induction len as [|len IH]; intros start; cbn [zrange length]; auto.
Qed.

Lemma linspace_nth lo hi num i :
  (i < num)%nat ->
  nth_error (linspace lo hi num) i
    = Some (lo + inject_Z (Z.of_nat i) * ((hi - lo) / Qofnat (num - 1)))%Q.
Proof.
  intros H. unfold linspace. rewrite nth_error_map, zrange_nth by exact H.
  reflexivity.
Qed.

Lemma linspace_length lo hi num : length (linspace lo hi num) = num.
Proof. unfold linspace. rewrite length_map. apply zrange_length. Qed.

Lemma linspace_nth_inv lo hi num i e :
  nth_error (linspace lo hi num) i = Some e ->
  (i < num)%nat /\
  e = (lo + inject_Z (Z.of_nat i) * ((hi - lo) / Qofnat (num - 1)))%Q.
Proof.
  intros H.
  assert (Hi : (i < num)%nat).
  { rewrite <- (linspace_length lo hi num). apply nth_error_Some. congruence. }
  split; [exact Hi|]. rewrite linspace_nth in H by exact Hi. congruence.
Qed.

(** A grid from [lo] up to a larger [hi] is increasing: the eccentricities
    are scanned from the lowest to the highest. *)
Lemma linspace_increasing lo hi num i j ei ej :
  (lo < hi)%Q -> (i < j)%nat ->
  nth_error (linspace lo hi num) i = Some ei ->
  nth_error (linspace lo hi num) j = Some ej ->
  (ei < ej)%Q.
Proof.
  intros Hlh Hij Hi Hj.
  apply linspace_nth_inv in Hi. apply linspace_nth_inv in Hj.
  destruct Hi as [Hi ->], Hj as [Hj ->].
  assert (Hstep : (0 < (hi - lo) / Qofnat (num - 1))%Q).
  { unfold Qdiv. apply Qmult_lt_0_compat.
    - unfold Qminus. rewrite <- (Qplus_opp_r lo). apply Qplus_lt_l. exact Hlh.
    - apply Qinv_lt_0_compat. unfold Qofnat, Qlt. simpl. lia. }
  apply Qplus_lt_r. apply Qmult_lt_compat_r; [exact Hstep|].
  unfold Qlt. simpl. lia.
Qed.

Lemma eb_eval_unfold (rnd decision d : list Q) (med : Q) (self : EB.t) :
  rbind (check_array decision) normalize = Ok d ->
  EB.phase1 rnd d = Ok med ->
  EB.eval rnd decision self =
    match snd (EB.scan d med (linspace 0 1 EB.samples)) with
    | None => (self, Raise UnboundLocalError)
    | Some limit => (EB.mk (Val (Fin limit)), Ok (cutq d (Fin limit)))
    end.
Proof.
  intros Ed Ec. unfold EB.eval, mbind, mlift, mraise, mput, mret.
  rewrite Ed, Ec. destruct (snd (EB.scan _ _ _)); reflexivity.
Qed.

(** C4 (amended).  Phase 2 of [EB.eval] scans the 5,000 eccentricities in
    increasing order, and a candidate replaces the current best only when
    its inlier count is strictly closer to the Phase-1 median count than the
    best so far, so among equally close candidates the earliest keeps its
    threshold.  The threshold selected this way is that of the first
    candidate of least distance to the median among all 5,000: every earlier
    candidate is strictly farther and no candidate is closer.  Either such a
    candidate beats the initial count 0 and [eval] returns the cut at its
    threshold, or none does and [limit] is never bound. *)
Theorem eb_scan_keeps_first_closest
  (rnd decision d : list Q) (med : Q) (self : EB.t) :
  rbind (check_array decision) normalize = Ok d ->
  EB.phase1 rnd d = Ok med ->
  let ec := linspace 0 1 EB.samples in
  let dist := eb_dist d med in
  (forall i j ei ej, (i < j)%nat ->
     nth_error ec i = Some ei -> nth_error ec j = Some ej -> (ei < ej)%Q) /\
  (forall st e, EB.scan_step d med st e <> st ->
     (dist e < eb_dist_of med (fst st))%Q /\
     EB.scan_step d med st e = (EB.inliers d e, Some (EB.boundary e))) /\
  ((EB.eval rnd decision self = (self, Raise UnboundLocalError) /\
    forall e, In e ec -> (eb_dist_of med 0 <= dist e)%Q) \/
   exists i e,
     nth_error ec i = Some e /\
     EB.eval rnd decision self =
       (EB.mk (Val (Fin (EB.boundary e))), Ok (cutq d (Fin (EB.boundary e)))) /\
     (dist e < eb_dist_of med 0)%Q /\
     (forall j e', (j < i)%nat -> nth_error ec j = Some e' ->
                   (dist e < dist e')%Q) /\
     (forall e', In e' ec -> (dist e <= dist e')%Q)).
Proof.
  intros Ed Ec ec dist. split; [|split].
  - intros i j ei ej. apply linspace_increasing. reflexivity.
  - intros st e Hne.
    destruct (eb_scan_step_cases d med st e) as [[Hlt E] | [_ E]];
      [auto | congruence].
  - rewrite (eb_eval_unfold rnd decision self Ed Ec). fold ec. unfold EB.scan.
    destruct (eb_scan_fold d med ec (0%Z, None))
      as [[Es Hall] | (i & e & Hn & Es & Hb & Hbefore & Hafter)].
    + left. rewrite Es. split; [reflexivity | exact Hall].
    + right. exists i, e. rewrite Es. cbn [snd fst] in *.
      split; [exact Hn|]. split; [reflexivity|]. split; [exact Hb|].
      split; [exact Hbefore|].
      intros e' Hin. apply In_nth_error in Hin. destruct Hin as [j Hj].
      destruct (Nat.lt_trichotomy j i) as [Hlt | [-> | Hgt]].
      * apply Qlt_le_weak. apply (Hbefore j); assumption.
      * rewrite Hn in Hj. inversion Hj; subst. apply Qle_refl.
      * apply (Hafter j); assumption.
Qed.

(** The first 5,000 doubles numpy draws after [np.random.seed(1234)]. *)
Definition rnd_1234 : list Q := MT19937.uniform 1234 5000.

(** Eleven evenly spaced scores. *)
Definition evenly_spaced : list Q := [0; 1; 2; 3; 4; 5; 6; 7; 8; 9; 10]%Q.

Definition evenly_spaced_normalized : list Q :=
  Eval vm_compute in
    match normalize evenly_spaced with Ok d => d | Raise _ => [] end.

(** With numpy's draws for the seed 1234 the median inlier count over
    eleven evenly spaced scores is 4. *)
Lemma eb_phase1_evenly_spaced :
  EB.phase1 rnd_1234 evenly_spaced_normalized = Ok 4%Q.
Proof. vm_compute. reflexivity. Qed.

Lemma evenly_spaced_valid :
  rbind (check_array evenly_spaced) normalize = Ok evenly_spaced_normalized.
Proof. vm_compute. reflexivity. Qed.

Lemma eb_scan_keeps_first_closest_witness :
  (EB.eval rnd_1234 evenly_spaced EB.__init__
     = (EB.__init__, Raise UnboundLocalError) /\
   forall e, In e (linspace 0 1 EB.samples) ->
     (eb_dist_of 4 0 <= eb_dist evenly_spaced_normalized 4 e)%Q) \/
  exists i e,
    nth_error (linspace 0 1 EB.samples) i = Some e /\
    EB.eval rnd_1234 evenly_spaced EB.__init__ =
      (EB.mk (Val (Fin (EB.boundary e))),
       Ok (cutq evenly_spaced_normalized (Fin (EB.boundary e)))) /\
    (eb_dist evenly_spaced_normalized 4 e < eb_dist_of 4 0)%Q /\
    (forall j e', (j < i)%nat ->
       nth_error (linspace 0 1 EB.samples) j = Some e' ->
       (eb_dist evenly_spaced_normalized 4 e
          < eb_dist evenly_spaced_normalized 4 e')%Q) /\
    (forall e', In e' (linspace 0 1 EB.samples) ->
       (eb_dist evenly_spaced_normalized 4 e
          <= eb_dist evenly_spaced_normalized 4 e')%Q).
Proof.
  pose proof (@eb_scan_keeps_first_closest rnd_1234 evenly_spaced
                evenly_spaced_normalized 4%Q EB.__init__ evenly_spaced_valid
                eb_phase1_evenly_spaced) as H.
  cbv zeta in H. exact (proj2 (proj2 H)).
Defined.

(** C4, as stated, fails: the threshold the scan selects is a global
    minimizer of the distance to the median.  On eleven evenly spaced
    scores, with numpy's draws for the seed 1234, the median inlier count is
    4; [eval] returns the threshold of the eccentricity number 2143, about
    0.39989, which leaves the four lowest scores as inliers, at distance 0
    from the median, and no candidate among the 5,000 is closer. *)
Lemma eb_selected_is_global_minimizer :
  exists e,
    nth_error (linspace 0 1 EB.samples) 2143 = Some e /\
    EB.eval rnd_1234 evenly_spaced EB.__init__ =
      (EB.mk (Val (Fin (EB.boundary e))),
       Ok [0; 0; 0; 0; 1; 1; 1; 1; 1; 1; 1]%Z) /\
    (forall e', In e' (linspace 0 1 EB.samples) ->
       (eb_dist evenly_spaced_normalized 4 e
          <= eb_dist evenly_spaced_normalized 4 e')%Q).
Proof.
  pose (d := evenly_spaced_normalized).
  pose (ec := linspace 0 1 EB.samples).
  pose (e := (0 + inject_Z 2143 * ((1 - 0) / Qofnat 4999))%Q).
  assert (Hs : EB.scan d 4 ec = (4%Z, Some (EB.boundary e))).
  { vm_compute. reflexivity. }
  exists e.
  split; [apply (@linspace_nth 0 1 EB.samples 2143); vm_compute; lia|].
  split.
  - rewrite (eb_eval_unfold rnd_1234 evenly_spaced EB.__init__
               evenly_spaced_valid eb_phase1_evenly_spaced).
    fold d ec. rewrite Hs. cbn [snd]. reflexivity.
  - intros e' Hin.
    assert (E0 : eb_dist d 4 e = 0%Q) by (vm_compute; reflexivity).
    fold d. rewrite E0. apply Qabs_nonneg.
Qed.

(** ** Constant input *)

Lemma fold_max_const c xs : forall acc,
  (acc == c)%Q -> Forall (fun v => (v == c)%Q) xs ->
  (fold_left Qmax xs acc == c)%Q.
Proof.
  induction xs as [|v xs IH]; intros acc Ha Hx; [exact Ha|].
  inversion Hx as [|? ? Hv Hxs]; subst. cbn [fold_left]. apply IH; [|exact Hxs].
  destruct (Q.max_dec acc v) as [E | E]; rewrite E; assumption.
Qed.

Lemma fold_min_const c xs : forall acc,
  (acc == c)%Q -> Forall (fun v => (v == c)%Q) xs ->
  (fold_left Qmin xs acc == c)%Q.
Proof.
  induction xs as [|v xs IH]; intros acc Ha Hx; [exact Ha|].
  inversion Hx as [|? ? Hv Hxs]; subst. cbn [fold_left]. apply IH; [|exact Hxs].
  destruct (Q.min_dec acc v) as [E | E]; rewrite E; assumption.
Qed.

(** [normalize] refuses a constant array. *)
Lemma normalize_constant c x :
  x <> [] -> Forall (fun v => (v == c)%Q) x ->
  normalize x = Raise DegenerateInputError.
Proof.
  intros Hne Hx. destruct x as [|x0 xs]; [congruence|].
  inversion Hx as [|? ? H0 Hxs]; subst. unfold normalize, qmax, qmin.
  assert (E : Qeq_bool (fold_left Qmax xs x0) (fold_left Qmin xs x0) = true).
  { apply Qeq_bool_iff.
    rewrite (fold_max_const H0 Hxs), (fold_min_const H0 Hxs). reflexivity. }
  rewrite E. reflexivity.
Qed.

Lemma checked_normalize_constant c x :
  x <> [] -> Forall (fun v => (v == c)%Q) x ->
  rbind (check_array x) normalize = Raise DegenerateInputError.
Proof.
  intros Hne Hx. rewrite <- (normalize_constant Hne Hx).
  destruct x; [congruence | reflexivity].
Qed.

(** C7.  On a constant array (a non-empty one whose elements all equal
    some [c]) the [eval] of every decision procedure raises
    [DegenerateInputError] and returns no label vector, whatever the
    libraries behind it would answer, and leaves the instance as it was. *)
Theorem constant_input_is_refused {N : Numeric} (c : Q) (x : list Q) :
  x <> [] -> Forall (fun v => (v == c)%Q) x ->
  (forall self, GESD.eval x self = (self, Raise DegenerateInputError)) /\
  (forall fuel self, MTT.eval fuel x self = (self, Raise DegenerateInputError)) /\
  (forall self, CHAU.eval x self = (self, Raise DegenerateInputError)) /\
  (forall self, MAD.eval x self = (self, Raise DegenerateInputError)) /\
  (forall get_clusters labels_ bgm_predict estimate_bandwidth meanshift_labels self,
     CLUST.eval get_clusters labels_ bgm_predict estimate_bandwidth
                meanshift_labels x self
       = (self, Raise DegenerateInputError)) /\
  (forall rnd self, EB.eval rnd x self = (self, Raise DegenerateInputError)) /\
  (forall density self,
     AUCP.eval density x self = (self, Raise DegenerateInputError)) /\
  (forall density base_widths self,
     FWFM.eval density base_widths x self = (self, Raise DegenerateInputError)) /\
  (forall mollifier self,
     MOLL.eval mollifier x self = (self, Raise DegenerateInputError)) /\
  (forall apply self,
     FILTER.eval apply x self = (self, Raise DegenerateInputError)) /\
  (forall load self, META.eval load x self = (self, Raise DegenerateInputError)).
Proof.
  intros Hne Hx.
  pose proof (checked_normalize_constant Hne Hx) as E.
  pose proof (normalize_constant Hne Hx) as E'.
  repeat split; intros;
    unfold GESD.eval, MTT.eval, CHAU.eval, MAD.eval, CLUST.eval, EB.eval,
      AUCP.eval, FWFM.eval, MOLL.eval, FILTER.eval, META.eval, check_scores,
      mbind, mlift, mget;
    try rewrite E; try reflexivity.
  destruct x; [congruence|]. cbn [check_array]. rewrite E'. reflexivity.
Qed.

Lemma constant_input_is_refused_witness :
  GESD.eval (N := Ref.numeric) [5; 5; 5; 5; 5]%Q (GESD.__init__ GESD.native 0.05)
    = (GESD.__init__ GESD.native 0.05, Raise DegenerateInputError) /\
  MAD.eval (N := Ref.numeric) [5; 5; 5; 5; 5]%Q MAD.__init__
    = (MAD.__init__, Raise DegenerateInputError) /\
  CHAU.eval (N := Ref.numeric) [5; 5; 5; 5; 5]%Q (CHAU.__init__ CHAU.mean_)
    = (CHAU.__init__ CHAU.mean_, Raise DegenerateInputError).
Proof.
  assert (Hne : [5; 5; 5; 5; 5]%Q <> []) by discriminate.
  assert (Hc : Forall (fun v => (v == 5)%Q) [5; 5; 5; 5; 5]%Q)
    by (repeat constructor).
  pose proof (@constant_input_is_refused Ref.numeric 5%Q _ Hne Hc) as H.
  destruct H as (Hg & _ & Hch & Hm & _).
  split; [apply Hg|]. split; [apply Hm | apply Hch].
Defined.

(** ** chau.py: the cut is made on the probabilities *)

Lemma cut_length scores limit : length (cut scores limit) = length scores.
Proof. apply length_map. Qed.

Lemma cut_nth scores limit i s :
  nth_error scores i = Some s ->
  nth_error (cut scores limit) i = Some (if np_gtb s limit then 1%Z else 0%Z).
Proof.
  intros H. unfold cut. rewrite nth_error_map, H. reflexivity.
Qed.

Section ChauFacts.
Context {N : Numeric}.

Lemma np_min_total l : l <> [] -> exists m, np_min l = Ok m.
Proof. destruct l; [congruence | simpl; eauto]. Qed.

Lemma np_max_total l : l <> [] -> exists m, np_max l = Ok m.
Proof. destruct l; [congruence | simpl; eauto]. Qed.

Lemma chau_prob_length m d : length (CHAU.prob m d) = length d.
Proof. apply length_map. Qed.

Lemma chau_eval_unfold (self : CHAU.t) (decision d : list Q) :
  rbind (check_array decision) normalize = Ok d ->
  exists mn mx,
    np_min (CHAU.prob (CHAU.method_ self) d) = Ok mn /\
    np_max (CHAU.prob (CHAU.method_ self) d) = Ok mx /\
    CHAU.eval decision self =
      (CHAU.set_thresh_ self
         (Val (CHAU.stored (CHAU.criterion (length d)) mn mx)),
       Ok (cut (CHAU.prob (CHAU.method_ self) d) (CHAU.criterion (length d)))).
Proof.
  intros Ed. destruct (checked_normalize_inv decision Ed) as [En Hne].
  assert (Hp : CHAU.prob (CHAU.method_ self) d <> []).
  { intros E. apply (f_equal (@length _)) in E.
    rewrite chau_prob_length, (normalize_length decision En) in E.
    destruct decision; [congruence | discriminate]. }
  destruct (np_min_total Hp) as [mn Emn]. destruct (np_max_total Hp) as [mx Emx].
  exists mn, mx. split; [exact Emn|]. split; [exact Emx|].
  unfold CHAU.eval, mbind, mlift, mget, mput, mret.
  rewrite Ed, Emn, Emx. reflexivity.
Qed.

(** C3.  On a valid input of [n] scores [CHAU.eval] computes the
    criterion [1 / |ppf(1 / (4 n))|] of the normal distribution and returns
    one label per score, the cut at that criterion of the array of
    probabilities [erfc(|d_i - center| / std)]: the label of a score is 1
    exactly when its probability, not the normalized score itself, exceeds
    the criterion. *)
Theorem chau_cuts_the_probabilities (self : CHAU.t) (decision d : list Q) :
  rbind (check_array decision) normalize = Ok d ->
  let n := length decision in
  let crit := np_div (Fin 1) (np_abs (norm_ppf (1 / (4 * Qofnat n))%Q)) in
  let c := CHAU.center (CHAU.method_ self) d in
  let p := fun v : Q => erfc (np_div (np_abs (np_sub (Fin v) c)) (Fin (std d))) in
  exists labels,
    snd (CHAU.eval decision self) = Ok labels /\
    labels = cut (map p d) crit /\
    length labels = n /\
    forall i v, nth_error d i = Some v ->
      nth_error labels i = Some (if np_gtb (p v) crit then 1%Z else 0%Z).
Proof.
  intros Ed n crit c p.
  destruct (chau_eval_unfold self decision Ed) as (mn & mx & _ & _ & Ev).
  pose proof (normalize_length decision (proj1 (checked_normalize_inv decision Ed))) as Hl.
  exists (cut (map p d) crit). rewrite Ev. cbn [snd].
  unfold CHAU.criterion, CHAU.prob. rewrite Hl. fold n crit c p.
  split; [reflexivity|]. split; [reflexivity|].
  split; [rewrite cut_length, length_map; exact Hl|].
  intros i v Hv. apply cut_nth. rewrite nth_error_map, Hv. reflexivity.
Qed.

(** C8.  On a valid input the labels [CHAU.eval] returns are the cut of the
    probabilities at the unscaled criterion, whatever threshold the instance
    held before; what it stores in [thresh_] is another value, the criterion
    times [1 - min(prob)] over [max(prob)]. *)
Theorem chau_labels_ignore_stored_threshold
  (m : CHAU.stat) (th : thresh) (decision d : list Q) :
  rbind (check_array decision) normalize = Ok d ->
  let crit := CHAU.criterion (length d) in
  let p := CHAU.prob m d in
  exists mn mx,
    np_min p = Ok mn /\ np_max p = Ok mx /\
    CHAU.thresh_ (fst (CHAU.eval decision (CHAU.mk m th)))
      = Val (np_div (np_mul crit (np_sub (Fin 1) mn)) mx) /\
    snd (CHAU.eval decision (CHAU.mk m th)) = Ok (cut p crit) /\
    forall th', snd (CHAU.eval decision (CHAU.mk m th')) = Ok (cut p crit).
Proof.
  intros Ed crit p.
  destruct (chau_eval_unfold (CHAU.mk m th) decision Ed) as (mn & mx & Emn & Emx & Ev).
  exists mn, mx. cbn [CHAU.method_] in *. fold p crit in Emn, Emx, Ev.
  split; [exact Emn|]. split; [exact Emx|]. rewrite Ev. cbn [fst snd].
  split; [reflexivity|]. split; [reflexivity|].
  intros th'.
  destruct (chau_eval_unfold (CHAU.mk m th') decision Ed) as (mn' & mx' & _ & _ & Ev').
  rewrite Ev'. reflexivity.
Qed.

End ChauFacts.

(** Three scores, the middle one near the mean. *)
Definition three_scores : list Q := [0; 4; 10]%Q.

Definition three_scores_normalized : list Q :=
  Eval vm_compute in
    match normalize three_scores with Ok d => d | Raise _ => [] end.

Lemma three_scores_valid :
  rbind (check_array three_scores) normalize = Ok three_scores_normalized.
Proof. vm_compute. reflexivity. Qed.

(** On the three scores the labels follow the probabilities, [0, 1, 0],
    where a cut of the normalized scores at the same criterion would give
    [0, 0, 1]. *)
Lemma chau_cuts_the_probabilities_witness :
  exists labels,
    snd (CHAU.eval (N := Ref.numeric) three_scores (CHAU.__init__ CHAU.mean_))
      = Ok labels /\
    labels = [0; 1; 0]%Z /\
    cutq three_scores_normalized (CHAU.criterion (N := Ref.numeric) 3)
      = [0; 0; 1]%Z.
Proof.
  destruct (@chau_cuts_the_probabilities Ref.numeric (CHAU.__init__ CHAU.mean_)
              three_scores three_scores_normalized three_scores_valid)
    as (labels & Ev & El & _).
  exists labels. split; [exact Ev|]. split; [|vm_compute; reflexivity].
  rewrite El. vm_compute. reflexivity.
Defined.

(** On the three scores the stored threshold, about 0.8247, is not the
    criterion, about 0.7231, and a cut of the probabilities at the stored
    value would not give the labels returned. *)
Lemma chau_labels_ignore_stored_threshold_witness :
  exists stored_,
    CHAU.thresh_ (fst (CHAU.eval (N := Ref.numeric) three_scores
                                 (CHAU.__init__ CHAU.mean_))) = Val stored_ /\
    snd (CHAU.eval (N := Ref.numeric) three_scores (CHAU.__init__ CHAU.mean_))
      = Ok [0; 1; 0]%Z /\
    np_gtb stored_ (CHAU.criterion (N := Ref.numeric) 3) = true /\
    cut (CHAU.prob (N := Ref.numeric) CHAU.mean_ three_scores_normalized) stored_
      = [0; 0; 0]%Z.
Proof.
  destruct (@chau_labels_ignore_stored_threshold Ref.numeric CHAU.mean_ Unset
              three_scores three_scores_normalized three_scores_valid)
    as (mn & mx & Emn & Emx & Et & El & _).
  unfold CHAU.__init__.
  eexists. split; [exact Et|]. split; [rewrite El; vm_compute; reflexivity|].
  vm_compute in Emn, Emx. injection Emn as <-. injection Emx as <-.
  split; vm_compute; reflexivity.
Defined.

(** ** aucp.py: the scan over the grid *)

Lemma auc_raises x y e : AUCP.auc x y = Raise e -> e = ValueError.
Proof.
  unfold AUCP.auc.
  repeat match goal with
         | |- context [if ?b then _ else _] => destruct b
         end; congruence.
Qed.

Lemma auc_needs_two_points x y a :
  AUCP.auc x y = Ok a -> (2 <= length x)%nat.
Proof.
  unfold AUCP.auc. destruct (negb _); [discriminate|].
  destruct (Nat.ltb_spec (length x) 2); [discriminate | auto].
Qed.

Lemma skipn_tl {A} (l : list A) i : skipn i (tl l) = skipn (S i) l.
Proof. destruct l; [destruct i|]; reflexivity. Qed.

(** The loop over a non-empty grid either breaks at the first position whose
    tail area is below the bound, a position with another one after it, or
    ends in the [ValueError] of the area routine; it never runs out of
    positions. *)
Lemma aucp_scan_cases bound : forall dat_range val,
  dat_range <> [] ->
  exists i,
    (i < length dat_range)%nat /\
    (forall j, (j < i)%nat ->
       exists a', AUCP.auc (skipn j dat_range) (skipn j val) = Ok a' /\
                  (bound <= a')%Q) /\
    ((exists x a,
        nth_error dat_range i = Some x /\ (S i < length dat_range)%nat /\
        AUCP.auc (skipn i dat_range) (skipn i val) = Ok a /\ (a < bound)%Q /\
        AUCP.scan dat_range val bound = Ok x) \/
     (AUCP.auc (skipn i dat_range) (skipn i val) = Raise ValueError /\
      AUCP.scan dat_range val bound = Raise ValueError)).
Proof.
  induction dat_range as [|x xs IH]; intros val Hne; [congruence|].
  cbn [AUCP.scan]. destruct (AUCP.auc (x :: xs) val) as [a|e] eqn:Ea.
  - cbn [rbind]. pose proof (auc_needs_two_points _ _ Ea) as H2.
    destruct (Qltb a bound) eqn:Elt.
    + exists 0%nat. split; [simpl; lia|]. split; [intros j Hj; lia|].
      left. exists x, a. cbn [skipn nth_error].
      split; [reflexivity|]. split; [exact H2|]. split; [exact Ea|].
      split; [apply Qltb_lt; exact Elt | reflexivity].
    + apply Qltb_ge in Elt.
      assert (Hxs : xs <> []) by (destruct xs; simpl in H2; [lia | discriminate]).
      destruct (IH (tl val) Hxs) as (i & Hi & Hbefore & Hcase).
      exists (S i). split; [simpl; lia|]. split.
      * intros [|j] Hj.
        -- exists a. split; [exact Ea | exact Elt].
        -- destruct (Hbefore j) as (a2 & Ha2 & Hle); [lia|].
           rewrite skipn_tl in Ha2. eauto.
      * destruct Hcase as [(x' & a' & Hn & Hi' & Ha & Hlt & Es) | [Ha Es]].
        -- left. exists x', a'. rewrite skipn_tl in Ha. cbn [nth_error].
           split; [exact Hn|]. split; [simpl; lia|]. split; [exact Ha|].
           split; [exact Hlt | exact Es].
        -- right. rewrite skipn_tl in Ha. split; [exact Ha | exact Es].
  - cbn [rbind]. pose proof (auc_raises _ _ Ea) as ->.
    exists 0%nat. split; [simpl; lia|]. split; [intros j Hj; lia|].
    right. cbn [skipn]. split; [exact Ea | reflexivity].
Qed.

Section AucpFacts.
Variable density : list Q -> list Q -> list Q.

(** X1.  What [AUCP.eval] returns when it returns: the cut at the first grid
    position whose tail area, over that position and at least one more, is
    strictly below [perc] times the total area.  When no position breaks the
    loop the call ends in the area routine's [ValueError] at the last
    position; the initial [limit = 1] is never the threshold. *)
Lemma aucp_eval_cases (decision d : list Q) (self : AUCP.t) :
  rbind (check_array decision) normalize = Ok d ->
  let grid := linspace 0 1 (length d * 2) in
  (exists e, AUCP.eval density decision self = (self, Raise e)) \/
  (exists val tot i x a,
     normalize (density d grid) = Ok val /\
     AUCP.auc grid val = Ok tot /\
     nth_error grid i = Some x /\ (S i < length grid)%nat /\
     AUCP.auc (skipn i grid) (skipn i val) = Ok a /\
     (a < AUCP.perc d * tot)%Q /\
     (forall j, (j < i)%nat ->
        exists a', AUCP.auc (skipn j grid) (skipn j val) = Ok a' /\
                   (AUCP.perc d * tot <= a')%Q) /\
     AUCP.eval density decision self
       = (AUCP.mk (Val (Fin x)), Ok (cutq d (Fin x)))).
Proof.
  intros Ed grid.
  unfold AUCP.eval, AUCP.gen_kde, mbind, mlift, mput, mret. rewrite Ed.
  fold grid.
  destruct (normalize (density d grid)) as [val|e] eqn:Ev; [|left; eauto].
  destruct (AUCP.auc grid val) as [tot|e] eqn:Et; [|left; eauto].
  assert (Hg : grid <> []).
  { pose proof (auc_needs_two_points _ _ Et) as H2.
    destruct grid; simpl in H2; [lia | discriminate]. }
  destruct (aucp_scan_cases (AUCP.perc d * tot) val Hg)
    as (i & Hi & Hbefore & [(x & a & Hn & Hi' & Ha & Hlt & Es) | [Ha Es]]).
  - right. exists val, tot, i, x, a. rewrite Es.
    split; [reflexivity|]. split; [exact Et|]. split; [exact Hn|].
    split; [exact Hi'|]. split; [exact Ha|]. split; [exact Hlt|].
    split; [exact Hbefore | reflexivity].
  - left. rewrite Es. eauto.
Qed.

End AucpFacts.

(** The branch of [aucp_eval_cases] that raises, run in the model on a
    curve chosen for the purpose (not one a kernel estimate of two scores
    returns): all the mass on the last of the four grid points.  The target
    fraction is 1/2 and the total area 1/6, and the tail area stays at 1/6
    at the first three positions, so none of them breaks the loop; at the
    fourth the area routine is given a single point and raises. *)
Example aucp_no_position_raises :
  let density := fun _ _ : list Q => [0; 0; 0; 1]%Q in
  let grid := linspace 0 1 4 in
  let tail := fun i => AUCP.auc (skipn i grid) (skipn i [0; 0; 0; 1]%Q) in
  (AUCP.perc [0; 1] == 1 # 2)%Q /\
  (exists tot, AUCP.auc grid [0; 0; 0; 1]%Q = Ok tot /\ (tot == 1 # 6)%Q) /\
  (forall i, (i < 3)%nat ->
     exists a, tail i = Ok a /\ ((1 # 2) * (1 # 6) <= a)%Q) /\
  tail 3%nat = Raise ValueError /\
  AUCP.eval density [0; 1]%Q AUCP.__init__ = (AUCP.__init__, Raise ValueError).
Proof.
  cbv zeta. split; [vm_compute; reflexivity|].
  split; [eexists; split; [vm_compute; reflexivity | vm_compute; reflexivity]|].
  split.
  - intros i Hi.
    assert (Hc : (i = 0 \/ i = 1 \/ i = 2)%nat) by lia.
    destruct Hc as [-> | [-> | ->]]; eexists;
      (split; [vm_compute; reflexivity | vm_compute; discriminate]).
  - split; vm_compute; reflexivity.
Qed.

(** ** Normalized scores, cuts and counts *)

Lemma fold_min_le xs : forall acc,
  (fold_left Qmin xs acc <= acc)%Q /\
  Forall (fun v => (fold_left Qmin xs acc <= v)%Q) xs.
Proof.
  induction xs as [|v xs IH]; intros acc; cbn [fold_left].
  - split; [apply Qle_refl | constructor].
  - destruct (IH (Qmin acc v)) as [H1 H2]. split.
    + eapply Qle_trans; [exact H1 | apply Q.le_min_l].
    + constructor; [|exact H2].
      eapply Qle_trans; [exact H1 | apply Q.le_min_r].
Qed.

Lemma fold_max_ge xs : forall acc,
  (acc <= fold_left Qmax xs acc)%Q /\
  Forall (fun v => (v <= fold_left Qmax xs acc)%Q) xs.
Proof.
  induction xs as [|v xs IH]; intros acc; cbn [fold_left].
  - split; [apply Qle_refl | constructor].
  - destruct (IH (Qmax acc v)) as [H1 H2]. split.
    + eapply Qle_trans; [apply Q.le_max_l | exact H1].
    + constructor; [|exact H2].
      eapply Qle_trans; [apply Q.le_max_r | exact H1].
Qed.

Lemma fold_min_in xs : forall acc,
  exists v, In v (acc :: xs) /\ (fold_left Qmin xs acc == v)%Q.
Proof.
  induction xs as [|w xs IH]; intros acc; cbn [fold_left].
  - exists acc. split; [left; reflexivity | reflexivity].
  - destruct (IH (Qmin acc w)) as (v & [<- | Hin] & E).
    + destruct (Q.min_dec acc w) as [E' | E'].
      * exists acc. split; [left; reflexivity | rewrite E; exact E'].
      * exists w. split; [right; left; reflexivity | rewrite E; exact E'].
    + exists v. split; [right; right; exact Hin | exact E].
Qed.

(** What [normalize] returns lies in [0, 1] and holds a 0. *)
Lemma normalize_range x d :
  normalize x = Ok d ->
  Forall (fun v => (0 <= v <= 1)%Q) d /\ exists v, In v d /\ (v == 0)%Q.
Proof.
  destruct x as [|x0 xs]; [discriminate|]. unfold normalize, qmax, qmin.
  set (lo := fold_left Qmin xs x0). set (hi := fold_left Qmax xs x0).
  destruct (Qeq_bool hi lo) eqn:E; [discriminate|]. intros Ed.
  inversion Ed; subst d; clear Ed.
  apply Qeq_bool_neq in E.
  destruct (fold_min_le xs x0) as [Hlo0 Hlo]. fold lo in Hlo0, Hlo.
  destruct (fold_max_ge xs x0) as [Hhi0 Hhi]. fold hi in Hhi0, Hhi.
  assert (Hpos : (0 < hi - lo)%Q).
  { assert (Hle : (lo <= hi)%Q) by (eapply Qle_trans; eassumption).
    destruct (Qle_lt_or_eq _ _ Hle) as [Hlt | Heq].
    - unfold Qminus. rewrite <- (Qplus_opp_r lo). apply Qplus_lt_l. exact Hlt.
    - exfalso. apply E. symmetry. exact Heq. }
  assert (Hall : Forall (fun v => (lo <= v <= hi)%Q) (x0 :: xs)).
  { constructor; [split; assumption|].
    rewrite Forall_forall in *. intros v Hv. split; [apply Hlo | apply Hhi]; exact Hv. }
  split.
  - rewrite Forall_forall in *. intros y Hy.
    change (In y (map (fun v => ((v - lo) / (hi - lo))%Q) (x0 :: xs))) in Hy.
    apply in_map_iff in Hy.
    destruct Hy as (v & <- & Hv). destruct (Hall v Hv) as [H1 H2]. split.
    + apply Qle_shift_div_l; [exact Hpos|]. rewrite Qmult_0_l.
      unfold Qminus. rewrite <- (Qplus_opp_r lo). apply Qplus_le_l. exact H1.
    + apply Qle_shift_div_r; [exact Hpos|]. rewrite Qmult_1_l.
      unfold Qminus. apply Qplus_le_l. exact H2.
  - destruct (fold_min_in xs x0) as (v & Hv & Ev). fold lo in Ev.
    exists ((v - lo) / (hi - lo))%Q. split.
    + change (In ((v - lo) / (hi - lo))%Q
                 (map (fun v => ((v - lo) / (hi - lo))%Q) (x0 :: xs))).
      apply (in_map (fun v => ((v - lo) / (hi - lo))%Q)). exact Hv.
    + rewrite <- Ev. unfold Qminus, Qdiv. rewrite Qplus_opp_r. apply Qmult_0_l.
Qed.

Lemma cut_binary scores limit : Forall binary (cut scores limit).
Proof.
  unfold cut. apply Forall_forall. intros l Hl. apply in_map_iff in Hl.
  destruct Hl as (s & <- & _). destruct (np_gtb s limit); [right | left]; reflexivity.
Qed.

Lemma cutq_length scores limit : length (cutq scores limit) = length scores.
Proof. unfold cutq. rewrite cut_length. apply length_map. Qed.

Lemma ones_cutq_cons v l limit :
  ones (cutq (v :: l) limit)
    = ((if np_gtb (Fin v) limit then 1 else 0) + ones (cutq l limit))%nat.
Proof.
  unfold cutq, cut. cbn [map]. rewrite ones_cons.
  destruct (np_gtb (Fin v) limit); destruct (Z.eq_dec _ 1); try lia; congruence.
Qed.

Lemma ones_cutq_le_length l limit : (ones (cutq l limit) <= length l)%nat.
Proof. rewrite <- (cutq_length l limit). apply ones_le_length. Qed.

Lemma ones_cutq_perm l1 l2 limit :
  Permutation l1 l2 -> ones (cutq l1 limit) = ones (cutq l2 limit).
Proof.
  induction 1 as [|v l1 l2 _ IH|v w l|l1 l2 l3 _ IH1 _ IH2].
  - reflexivity.
  - rewrite !ones_cutq_cons, IH. reflexivity.
  - rewrite !ones_cutq_cons. lia.
  - congruence.
Qed.

(** No score above the limit, no label 1. *)
Lemma ones_cutq_none l (q : Q) :
  Forall (fun v => (v <= q)%Q) l -> ones (cutq l (Fin q)) = 0%nat.
Proof.
  induction 1 as [|v l Hv _ IH]; [reflexivity|].
  rewrite ones_cutq_cons, IH. cbn [np_gtb].
  apply Qltb_ge in Hv. rewrite Hv. reflexivity.
Qed.

Lemma ones_zero_all_zero l :
  Forall binary l -> ones l = 0%nat -> Forall (fun v => v = 0%Z) l.
Proof.
  induction 1 as [|v l Hv _ IH]; intros E; constructor;
    rewrite ones_cons in E; destruct (Z.eq_dec v 1).
  - lia.
  - destruct Hv; congruence.
  - lia.
  - apply IH. lia.
Qed.

#[local] Instance Qle_bool_trans :
  Transitive (fun x y : Q => is_true (Qle_bool x y)).
Proof.
  intros a b c Hab Hbc. apply Qle_bool_iff. apply Qle_bool_iff in Hab, Hbc.
  eapply Qle_trans; eassumption.
Qed.

Lemma sort_sorted l :
  StronglySorted (fun x y : Q => is_true (Qle_bool x y)) (sort l).
Proof. apply QSort.StronglySorted_sort. exact Qle_bool_trans. Qed.

(** In a sorted array at most the elements after position [m] exceed the
    element at position [m]. *)
Lemma ones_cutq_sorted s :
  StronglySorted (fun x y : Q => is_true (Qle_bool x y)) s ->
  forall m, (m < length s)%nat ->
  (ones (cutq s (Fin (nth m s 0%Q))) <= length s - m - 1)%nat.
Proof.
  induction 1 as [|a s Hs IH Ha]; intros m Hm; [simpl in Hm; lia|].
  rewrite ones_cutq_cons. cbn [length np_gtb]. destruct m as [|m]; cbn [nth].
  - replace (Qltb a a) with false
      by (symmetry; apply Qltb_ge; apply Qle_refl).
    pose proof (ones_cutq_le_length s (Fin a)). lia.
  - simpl in Hm. assert (Hm' : (m < length s)%nat) by lia.
    rewrite Forall_forall in Ha.
    assert (Hle : (a <= nth m s 0)%Q).
    { apply Qle_bool_iff. apply Ha. apply nth_In. exact Hm'. }
    apply Qltb_ge in Hle. rewrite Hle. specialize (IH m Hm'). lia.
Qed.

(** ** mtt.py: how many scores the threshold flags *)

Lemma last_is_nth (l : list Q) :
  l <> [] -> last l 0%Q = nth (length l - 1) l 0%Q.
Proof.
  induction l as [|a l IH]; [congruence|]. intros _.
  destruct l as [|b l]; [reflexivity|].
  change (last (a :: b :: l) 0%Q) with (last (b :: l) 0%Q).
  rewrite IH by discriminate. cbn [length].
  replace (S (S (length l)) - 1)%nat with (S (S (length l) - 1))%nat by lia.
  reflexivity.
Qed.

Lemma nth_removelast (l : list Q) i :
  (i < length (removelast l))%nat -> nth i (removelast l) 0%Q = nth i l 0%Q.
Proof.
  intros H. rewrite removelast_firstn_len in *. rewrite nth_firstn.
  rewrite length_firstn in H.
  destruct (Nat.ltb_spec i (Nat.pred (length l))); [reflexivity | lia].
Qed.

Section MttCounts.
Context {N : Numeric}.

(** At [break] the limit is the initial one and nothing was removed, or it
    is the element of the sorted array just after those that are left. *)
Lemma mtt_loop_limit alpha : forall fuel arr limit arr' limit',
  MTT.loop fuel alpha arr limit = Some (Ok (arr', limit')) ->
  (arr' = arr /\ limit' = limit) \/
  ((length arr' < length arr)%nat /\ limit' = nth (length arr') arr 0%Q).
Proof.
  induction fuel as [|fuel IH]; intros arr limit arr' limit' E; [discriminate|].
  cbn [MTT.loop] in E.
  destruct arr as [|a arr]; [discriminate|].
  assert (Hne : a :: arr <> []) by discriminate.
  destruct (mtt_step_cases alpha Hne) as [Es | Es]; rewrite Es in E.
  - inversion E; subst. left. auto.
  - pose proof (removelast_length Hne) as Hr.
    apply IH in E. right. destruct E as [[-> ->] | [Hlt ->]].
    + split; [lia|]. rewrite (last_is_nth Hne). f_equal. lia.
    + split; [lia|]. apply nth_removelast. exact Hlt.
Qed.

(** What is left at [break] is a prefix of the sorted array: each pass
    removes the last element. *)
Lemma mtt_loop_prefix alpha : forall fuel arr limit arr' limit',
  MTT.loop fuel alpha arr limit = Some (Ok (arr', limit')) ->
  arr' = firstn (length arr') arr.
Proof.
  induction fuel as [|fuel IH]; intros arr limit arr' limit' E; [discriminate|].
  cbn [MTT.loop] in E.
  destruct arr as [|a arr]; [discriminate|].
  assert (Hne : a :: arr <> []) by discriminate.
  destruct (mtt_step_cases alpha Hne) as [Es | Es]; rewrite Es in E.
  - inversion E; subst. symmetry. apply firstn_all.
  - apply IH in E.
    assert (Hle : (length arr' <= length (removelast (a :: arr)))%nat).
    { rewrite E at 1. rewrite length_firstn. apply Nat.le_min_r. }
    rewrite E at 1. rewrite removelast_firstn_len, firstn_firstn.
    rewrite removelast_firstn_len, length_firstn in Hle.
    f_equal. lia.
Qed.

(** The scores strictly above a value, and those at or above it. *)
Definition above (l : list Q) (q : Q) : nat :=
  length (filter (fun v => Qltb q v) l).
Definition at_or_above (l : list Q) (q : Q) : nat :=
  length (filter (fun v => Qle_bool q v) l).

Lemma ones_cutq_above l (q : Q) : ones (cutq l (Fin q)) = above l q.
Proof.
  unfold above. induction l as [|v l IH]; [reflexivity|].
  rewrite ones_cutq_cons, IH. cbn [np_gtb filter].
  destruct (Qltb q v); reflexivity.
Qed.

Lemma at_or_above_perm l1 l2 q :
  Permutation l1 l2 -> at_or_above l1 q = at_or_above l2 q.
Proof.
  unfold at_or_above.
  induction 1 as [|v l1 l2 _ IH|v w l|l1 l2 l3 _ IH1 _ IH2]; cbn [filter].
  - reflexivity.
  - destruct (Qle_bool q v); cbn [length]; rewrite IH; reflexivity.
  - destruct (Qle_bool q v); destruct (Qle_bool q w); reflexivity.
  - congruence.
Qed.

Lemma at_or_above_all l q :
  Forall (fun v => is_true (Qle_bool q v)) l -> at_or_above l q = length l.
Proof.
  unfold at_or_above. induction 1 as [|v l Hv _ IH]; [reflexivity|].
  cbn [filter]. rewrite Hv. cbn [length]. rewrite IH. reflexivity.
Qed.

(** In a sorted array the elements from position [m] on are at or above the
    element at position [m]. *)
Lemma at_or_above_sorted s :
  StronglySorted (fun x y : Q => is_true (Qle_bool x y)) s ->
  forall m, (m < length s)%nat ->
  (length s - m <= at_or_above s (nth m s 0%Q))%nat.
Proof.
  induction 1 as [|a s Hs IH Ha]; intros m Hm; [simpl in Hm; lia|].
  destruct m as [|m]; cbn [nth].
  - rewrite at_or_above_all; [lia|]. constructor; [|exact Ha].
    apply Qle_bool_iff. apply Qle_refl.
  - cbn [length] in *. assert (Hm' : (m < length s)%nat) by lia.
    specialize (IH m Hm'). unfold at_or_above in *. cbn [filter].
    destruct (Qle_bool _ a); cbn [length]; lia.
Qed.

(** X2.  The threshold of the modified Thompson Tau test is the smallest
    score it rejected.  When the loop ends having removed [r] elements, what
    is left is the [n - r] smallest scores; with [r = 0] the threshold is
    the initial 1.1, above every score; otherwise it is the score of rank
    [n - r] in the sorted array, so that at least [r] scores are at or above
    the stored threshold and at most [r - 1] are strictly above it.
    [MTT.eval] stores that threshold and returns the cut at it. *)
Theorem mtt_threshold_is_smallest_rejected
  (self : MTT.t) (fuel : nat) (decision d arr' : list Q) (limit' : Q) :
  rbind (check_array decision) normalize = Ok d ->
  MTT.loop fuel (MTT.alpha self) (sort d) 1.1%Q = Some (Ok (arr', limit')) ->
  MTT.eval fuel decision self
    = (MTT.set_thresh_ self (Val limit'), Ok (Some (cutq d limit'))) /\
  arr' = firstn (length arr') (sort d) /\
  (length arr' <= length d)%nat /\
  (length arr' = length d -> limit' = 1.1%Q /\ above d limit' = 0%nat) /\
  ((length arr' < length d)%nat ->
     limit' = nth (length arr') (sort d) 0%Q /\
     (length d - length arr' <= at_or_above d limit')%nat /\
     (above d limit' <= length d - length arr' - 1)%nat).
Proof.
  intros Ed El. split; [|split; [|split; [|split]]].
  - unfold MTT.eval, mbind, mlift, mget, mput, mret. rewrite Ed, El. reflexivity.
  - exact (mtt_loop_prefix _ _ _ _ El).
  - destruct (mtt_loop_limit _ _ _ _ El) as [[-> _] | [Hlt _]];
      rewrite sort_length in *; lia.
  - intros Hlen.
    destruct (mtt_loop_limit _ _ _ _ El) as [[_ ->] | [Hlt _]];
      [|rewrite sort_length in Hlt; lia].
    split; [reflexivity|].
    destruct (checked_normalize_inv decision Ed) as [En _].
    destruct (normalize_range _ En) as [Hr _].
    rewrite <- ones_cutq_above. apply ones_cutq_none.
    rewrite Forall_forall in *. intros v Hv. destruct (Hr v Hv) as [_ H1].
    eapply Qle_trans; [exact H1|]. unfold Qle. simpl. lia.
  - intros Hlt.
    destruct (mtt_loop_limit _ _ _ _ El) as [[-> _] | [_ ->]];
      [rewrite sort_length in Hlt; lia|].
    split; [reflexivity|]. split.
    + rewrite (at_or_above_perm _ (sort_perm d)).
      pose proof (@at_or_above_sorted (sort d) (sort_sorted d) (length arr')) as H.
      rewrite sort_length in H. apply H. exact Hlt.
    + rewrite <- ones_cutq_above.
      rewrite (ones_cutq_perm _ (sort_perm d)).
      pose proof (@ones_cutq_sorted (sort d) (sort_sorted d) (length arr')) as H.
      rewrite sort_length in H. apply H. exact Hlt.
Qed.

End MttCounts.

Lemma mtt_threshold_is_smallest_rejected_witness :
  exists arr' limit',
    MTT.loop (N := Ref.numeric) 10 0.99 (sort scenario_A_normalized) 1.1%Q
      = Some (Ok (arr', limit')) /\
    length arr' = 9%nat /\
    MTT.eval (N := Ref.numeric) 10 scenario_A (MTT.__init__ 0.99)
      = (MTT.set_thresh_ (MTT.__init__ 0.99) (Val limit'),
         Ok (Some (cutq scenario_A_normalized limit'))) /\
    limit' = nth 9 (sort scenario_A_normalized) 0%Q /\
    (1 <= at_or_above scenario_A_normalized limit')%nat /\
    (above scenario_A_normalized limit' <= 0)%nat.
Proof.
  assert (Ed : rbind (check_array scenario_A) normalize = Ok scenario_A_normalized)
    by (vm_compute; reflexivity).
  assert (El : exists arr' limit',
             MTT.loop (N := Ref.numeric) 10 0.99 (sort scenario_A_normalized) 1.1%Q
               = Some (Ok (arr', limit')) /\ length arr' = 9%nat)
    by (eexists; eexists; split; [vm_compute; reflexivity | reflexivity]).
  destruct El as (arr' & limit' & El & Hlen).
  exists arr', limit'. split; [exact El|]. split; [exact Hlen|].
  destruct (@mtt_threshold_is_smallest_rejected Ref.numeric (MTT.__init__ 0.99) 10
              scenario_A scenario_A_normalized arr' limit' Ed El)
    as (Hev & _ & _ & _ & Hrej).
  split; [exact Hev|].
  assert (Hlt : (length arr' < length scenario_A_normalized)%nat)
    by (rewrite Hlen; vm_compute; reflexivity).
  destruct (Hrej Hlt) as (Hl & Hge & Hgt).
  rewrite Hlen in Hl, Hge, Hgt. split; [exact Hl|]. split; [exact Hge | exact Hgt].
Defined.

(** ** gesd.py: the rounds of the test *)

Section GesdRounds.
Context {N : Numeric}.

Lemma delete_incl l : forall i v, In v (delete l i) -> In v l.
Proof.
  induction l as [|a l IH]; intros i v H; [destruct i; exact H|].
  destruct i as [|i]; cbn [delete] in H.
  - right. exact H.
  - destruct H as [<- | H]; [left; reflexivity | right; eapply IH; exact H].
Qed.

(** One round on a non-empty working array: it removes the most deviant
    element, and the limit stays or drops to that element's value. *)
Lemma gesd_round_limit alpha k arr limit :
  arr <> [] ->
  exists i limit',
    (i < length arr)%nat /\
    (limit' = limit \/ (limit' = nth i arr 0%Q /\ (limit' < limit)%Q)) /\
    GESD.loop alpha (S k) arr limit = GESD.loop alpha k (delete arr i) limit'.
Proof.
  intros Hne. destruct arr as [|a arr]; [congruence|].
  cbn [GESD.loop]. unfold GESD._calc_crit.
  cbn [length Nat.eqb rbind GESD._grubbs_stat].
  set (i := argmax _). set (Gs := np_div _ _). set (Gc := np_div _ _).
  exists i. 
  assert (Hi : (i < length (a :: arr))%nat).
  { unfold i. rewrite <- (length_map (fun v => Qabs (v - qmean (a :: arr)))).
    apply argmax_lt. discriminate. }
  destruct (np_gtb Gs Gc && Qltb (nth i (a :: arr) 0%Q) limit) eqn:E.
  - exists (nth i (a :: arr) 0%Q). split; [exact Hi|]. split; [|reflexivity].
    right. split; [reflexivity|]. apply andb_prop in E. apply Qltb_lt. apply E.
  - exists limit. split; [exact Hi|]. split; [left|]; reflexivity.
Qed.

(** As long as the rounds do not outnumber the elements the loop returns a
    limit: the initial one, or an element of the array below it. *)
Lemma gesd_loop_returns alpha : forall k arr limit,
  (k <= length arr)%nat ->
  exists limit',
    GESD.loop alpha k arr limit = Ok limit' /\
    (limit' = limit \/ (In limit' arr /\ (limit' < limit)%Q)).
Proof.
  induction k as [|k IH]; intros arr limit Hk.
  - exists limit. split; [reflexivity | left; reflexivity].
  - assert (Hne : arr <> []) by (destruct arr; simpl in Hk; [lia | discriminate]).
    destruct (@gesd_round_limit alpha k arr limit Hne) as (i & l1 & Hi & Hl1 & E).
    destruct (@IH (delete arr i) l1) as (l2 & E2 & Hl2).
    { pose proof (delete_length _ Hi). lia. }
    exists l2. rewrite E. split; [exact E2|].
    destruct Hl2 as [-> | [Hin Hlt]].
    + destruct Hl1 as [-> | [-> Hlt]]; [left; reflexivity|].
      right. split; [apply nth_In; exact Hi | exact Hlt].
    + right. split; [eapply delete_incl; exact Hin|].
      destruct Hl1 as [-> | [_ Hlt1]]; [exact Hlt|].
      eapply Qlt_trans; eassumption.
Qed.

Definition gesd_rounds (self : GESD.t) (n : nat) : nat :=
  match GESD.max_outliers self with
  | GESD.native => (n / 2)%nat
  | GESD.outliers k => Z.to_nat k
  end.

Definition gesd_cap_after (self : GESD.t) (n : nat) : GESD.cap :=
  match GESD.max_outliers self with
  | GESD.native => GESD.outliers (Z.of_nat (n / 2))
  | c => c
  end.

Lemma gesd_eval_unfold (self : GESD.t) (decision d : list Q) :
  rbind (check_array decision) normalize = Ok d ->
  GESD.eval decision self =
    match GESD.loop (GESD.alpha self) (gesd_rounds self (length decision)) d 1.1%Q with
    | Ok limit =>
        (GESD.mk (gesd_cap_after self (length decision)) (GESD.alpha self)
                 (Val limit),
         Ok (cutq d limit))
    | Raise e =>
        (GESD.mk (gesd_cap_after self (length decision)) (GESD.alpha self)
                 (GESD.thresh_ self),
         Raise e)
    end.
Proof.
  intros Ed. destruct self as [c alpha th]. unfold gesd_rounds, gesd_cap_after.
  cbn [GESD.max_outliers GESD.alpha GESD.thresh_].
  destruct c as [|k].
  - rewrite (gesd_eval_native alpha th decision Ed).
    rewrite Nat2Z.id. reflexivity.
  - apply gesd_eval_capped. exact Ed.
Qed.

(** X4.  With a cap that does not exceed the number of scores, and so for
    the default ['native'] cap, [GESD.eval] returns on every valid input:
    one label per score, the cut at a threshold that is the initial 1.1 or
    one of the normalized scores. *)
Theorem gesd_returns_within_cap (self : GESD.t) (decision d : list Q) :
  rbind (check_array decision) normalize = Ok d ->
  (gesd_rounds self (length decision) <= length decision)%nat ->
  exists limit : Q,
    GESD.eval decision self =
      (GESD.mk (gesd_cap_after self (length decision)) (GESD.alpha self)
               (Val limit),
       Ok (cutq d limit)) /\
    length (cutq d (Fin limit)) = length decision /\
    (limit = 1.1%Q \/ (In limit d /\ (limit <= 1)%Q)).
Proof.
  intros Ed Hk. destruct (checked_normalize_inv decision Ed) as [En _].
  pose proof (normalize_length decision En) as Hl.
  destruct (@gesd_loop_returns (GESD.alpha self)
              (gesd_rounds self (length decision)) d 1.1%Q)
    as (limit & El & Hlim); [lia|].
  exists limit. rewrite (gesd_eval_unfold self decision Ed), El.
  split; [reflexivity|]. split; [rewrite cutq_length; exact Hl|].
  destruct Hlim as [-> | [Hin _]]; [left; reflexivity|].
  right. split; [exact Hin|].
  destruct (normalize_range _ En) as [Hr _]. rewrite Forall_forall in Hr.
  apply Hr. exact Hin.
Qed.

(** X3.  A cap above the number of scores makes [GESD.eval] fail on every
    valid input: the round after the last element is removed divides by the
    size zero, and the call raises [ZeroDivisionError] without storing a
    threshold. *)
Theorem gesd_cap_above_size_raises (self : GESD.t) (decision d : list Q) :
  rbind (check_array decision) normalize = Ok d ->
  (length decision < gesd_rounds self (length decision))%nat ->
  GESD.eval decision self =
    (GESD.mk (gesd_cap_after self (length decision)) (GESD.alpha self)
             (GESD.thresh_ self),
     Raise ZeroDivisionError).
Proof.
  intros Ed Hk. destruct (checked_normalize_inv decision Ed) as [En _].
  pose proof (normalize_length decision En) as Hl.
  rewrite (gesd_eval_unfold self decision Ed).
  rewrite gesd_loop_overrun by lia. reflexivity.
Qed.

End GesdRounds.

Lemma one_low_valid :
  exists d, rbind (check_array one_low) normalize = Ok d /\ length d = 4%nat.
Proof. eexists. split; [vm_compute; reflexivity | reflexivity]. Qed.

Lemma gesd_returns_within_cap_witness :
  exists (d : list Q) (limit : Q),
    rbind (check_array one_low) normalize = Ok d /\
    GESD.eval (N := Ref.numeric) one_low (GESD.__init__ GESD.native 0.05) =
      (GESD.mk (GESD.outliers 2) 0.05 (Val limit), Ok (cutq d limit)) /\
    length (cutq d (Fin limit)) = 4%nat /\
    (limit = 1.1%Q \/ (In limit d /\ (limit <= 1)%Q)).
Proof.
  eexists.
  assert (Ed : rbind (check_array one_low) normalize = Ok _)
    by (vm_compute; reflexivity).
  destruct (@gesd_returns_within_cap Ref.numeric (GESD.__init__ GESD.native 0.05)
              one_low _ Ed) as (limit & H).
  - vm_compute. lia.
  - exists limit. split; [exact Ed | exact H].
Defined.

Lemma gesd_cap_above_size_raises_witness :
  GESD.eval (N := Ref.numeric) one_low (GESD.__init__ (GESD.outliers 5) 0.05) =
    (GESD.__init__ (GESD.outliers 5) 0.05, Raise ZeroDivisionError).
Proof.
  destruct one_low_valid as (d & Ed & _).
  refine (@gesd_cap_above_size_raises Ref.numeric
            (GESD.__init__ (GESD.outliers 5) 0.05) one_low d Ed _).
  vm_compute. lia.
Defined.

(** A kernel estimate for the examples: triangular bumps of half-width 1/4
    around the scores. *)
Definition triangular_density (sample grid : list Q) : list Q :=
  map (fun g => Qsum (map (fun s => Qmax 0 (1 - Qabs (g - s) * 4)) sample)) grid.

Lemma aucp_eval_cases_witness :
  let d := three_scores_normalized in
  let grid := linspace 0 1 (length d * 2) in
  (exists e, AUCP.eval triangular_density three_scores AUCP.__init__
             = (AUCP.__init__, Raise e)) \/
  (exists val tot i x a,
     normalize (triangular_density d grid) = Ok val /\
     AUCP.auc grid val = Ok tot /\
     nth_error grid i = Some x /\ (S i < length grid)%nat /\
     AUCP.auc (skipn i grid) (skipn i val) = Ok a /\
     (a < AUCP.perc d * tot)%Q /\
     (forall j, (j < i)%nat ->
        exists a', AUCP.auc (skipn j grid) (skipn j val) = Ok a' /\
                   (AUCP.perc d * tot <= a')%Q) /\
     AUCP.eval triangular_density three_scores AUCP.__init__
       = (AUCP.mk (Val (Fin x)), Ok (cutq d (Fin x)))).
Proof.
  exact (@aucp_eval_cases triangular_density three_scores
           three_scores_normalized AUCP.__init__ three_scores_valid).
Defined.

(** ** clust.py: the two groups of the pyclustering path *)










(** ** filter.py: window sizes *)

Lemma round_half_even_int q k :
  (q == inject_Z k)%Q -> round_half_even q = k.
Proof.
  intros E. unfold round_half_even.
  assert (Hf : Qfloor q = k) by (rewrite E; apply Qfloor_Z).
  rewrite Hf.
  assert (Hr : Qltb (q - inject_Z k) (1 # 2) = true).
  { apply Qltb_lt. rewrite E. unfold Qminus. rewrite Qplus_opp_r. reflexivity. }
  rewrite Hr. reflexivity.
Qed.

Lemma even_float_int q k :
  (q == inject_Z k)%Q -> FILTER.even_float q = Z.even k.
Proof.
  intros E. unfold FILTER.even_float.
  assert (Hf : Qfloor (q / 2) = (k / 2)%Z).
  { rewrite E. unfold Qfloor, Qdiv, Qmult, Qinv, inject_Z. cbn.
    rewrite Z.mul_1_r. reflexivity. }
  rewrite Hf. apply Bool.eq_iff_eq_true. rewrite Qeq_bool_iff, E.
  rewrite inject_Z_injective, Z.even_spec. split.
  - intros H. exists (k / 2)%Z. exact H.
  - intros [m ->]. rewrite Z.mul_comm, Z.div_mul by lia. lia.
Qed.

Section FilterFacts.
Context {N : Numeric}.
Variable apply : FILTER.scipy_filter -> list Q -> result (list npfloat).

(** X6.  The kernel size handed to scipy's median filter is odd whatever
    [sigma] is, and so is the window handed to the Savitzky-Golay filter
    when [sigma] is ['auto'] or a whole number.  A fractional [sigma] is not
    caught by the parity test before it is rounded: the user's 4.5 reaches
    the filter as the even window 4. *)
Theorem filter_windows_are_odd (th : thresh) (decision : list Q) (sig : Q) :
  (forall s, exists k,
      Z.odd k = true /\
      FILTER.method_funcs apply (FILTER.mk FILTER.medfilt s th) decision sig
        = apply (FILTER.medfilt_ k) decision) /\
  (exists k,
      Z.odd k = true /\
      FILTER.method_funcs apply (FILTER.mk FILTER.savgol FILTER.auto th) decision sig
        = apply (FILTER.savgol_filter k 1) decision) /\
  (forall z : Z, exists k,
      Z.odd k = true /\
      FILTER.method_funcs apply
        (FILTER.mk FILTER.savgol (FILTER.given (inject_Z z)) th) decision (inject_Z z)
        = apply (FILTER.savgol_filter k 1) decision) /\
  FILTER.method_funcs apply
    (FILTER.mk FILTER.savgol (FILTER.given 4.5%Q) th) decision 4.5%Q
    = apply (FILTER.savgol_filter 4 1) decision.
Proof.
  assert (Hodd : forall z, Z.odd (if Z.even z then z + 1 else z)%Z = true).
  { intros z. destruct (Z.even z) eqn:E.
    - rewrite Z.odd_add, <- Z.negb_even, E. reflexivity.
    - rewrite <- Z.negb_even, E. reflexivity. }
  assert (Hsav : forall z : Z,
             let s := if FILTER.even_float (inject_Z z)
                      then (inject_Z z + 1)%Q else inject_Z z in
             round_half_even s = (if Z.even z then z + 1 else z)%Z).
  { intros z. cbv zeta. rewrite (@even_float_int (inject_Z z) z) by reflexivity.
    destruct (Z.even z); apply round_half_even_int; [|reflexivity].
    rewrite inject_Z_plus. reflexivity. }
  split; [|split; [|split]].
  - intros s. eexists. split; [|reflexivity]. apply Hodd.
  - eexists. split; [|cbn [FILTER.method_funcs FILTER.method_ FILTER.sigma FILTER.is_auto];
                       rewrite Hsav; reflexivity].
    apply Hodd.
  - intros z. eexists.
    split; [|cbn [FILTER.method_funcs FILTER.method_ FILTER.sigma FILTER.is_auto];
             rewrite Hsav; reflexivity].
    apply Hodd.
  - vm_compute. reflexivity.
Qed.

End FilterFacts.

(** ** clust.py: mean shift keeps the largest cluster *)

Lemma argmax_nat_from_spec (f : nat -> nat) : forall n i ibest,
  (f ibest <= f (CLUST.argmax_nat_from (f ibest) ibest i (map f (seq i n))))%nat /\
  (forall j, (i <= j < i + n)%nat ->
     (f j <= f (CLUST.argmax_nat_from (f ibest) ibest i (map f (seq i n))))%nat).
Proof.
  induction n as [|n IH]; intros i ibest; cbn [seq map CLUST.argmax_nat_from].
  - split; [lia | intros j Hj; lia].
  - destruct (Nat.ltb_spec (f ibest) (f i)) as [Hlt | Hge].
    + destruct (IH (S i) i) as [H1 H2].
      split; [eapply Nat.le_trans; [apply Nat.lt_le_incl; exact Hlt | exact H1]|].
      intros j Hj. destruct (Nat.eq_dec j i) as [-> | Hne]; [exact H1|].
      apply H2. clear - Hj Hne. lia.
    + destruct (IH (S i) ibest) as [H1 H2]. split; [exact H1|].
      intros j Hj. destruct (Nat.eq_dec j i) as [-> | Hne].
      * eapply Nat.le_trans; [exact Hge | exact H1].
      * apply H2. clear - Hj Hne. lia.
Qed.

(** [np.bincount(lbls).argmax()] is a most frequent label. *)
Lemma mode_of_most_frequent lbls v :
  (count_occ Nat.eq_dec lbls v
     <= count_occ Nat.eq_dec lbls (CLUST.mode_of lbls))%nat.
Proof.
  unfold CLUST.mode_of, CLUST.bincount. cbn [seq map].
  set (f := fun v => count_occ Nat.eq_dec lbls v).
  destruct (argmax_nat_from_spec f (list_max lbls) 1 0) as [H0 H1].
  destruct (le_lt_dec v (list_max lbls)) as [Hle | Hgt].
  - destruct (Nat.eq_dec v 0) as [-> | Hne]; [exact H0|].
    apply H1. clear - Hle Hne. generalize dependent (list_max lbls). intros; lia.
  - assert (E : f v = 0%nat); [|rewrite E; apply Nat.le_0_l].
    unfold f. apply count_occ_not_In. intros Hin.
    assert (Hm : (list_max lbls <= list_max lbls)%nat) by apply Nat.le_refl.
    apply list_max_le in Hm. rewrite Forall_forall in Hm.
    specialize (Hm v Hin). clear - Hm Hgt.
    generalize dependent (list_max lbls). intros; lia.
Qed.

Section MshiftFacts.
Variable estimate_bandwidth : list Q -> option npfloat -> result npfloat.
Variable meanshift_labels : npfloat -> list Q -> list nat.

(** X7.  When the mean-shift path returns, it labels 0 exactly the points
    of one cluster, and no cluster is larger than that one: the number of
    labels 0 is at least the size of every cluster.  Here, unlike on the
    paths that flip, the largest group is always the inliers. *)
Theorem mshift_largest_cluster_is_inlier (decision : list Q) (labels : list Z) :
  CLUST._MSHIFT_clust estimate_bandwidth meanshift_labels decision = Ok labels ->
  exists bw lbls mode,
    lbls = meanshift_labels bw decision /\
    labels = map (fun l => if Nat.eqb l mode then 0%Z else 1%Z) lbls /\
    count_occ Z.eq_dec labels 0%Z = count_occ Nat.eq_dec lbls mode /\
    forall v, (count_occ Nat.eq_dec lbls v <= count_occ Z.eq_dec labels 0%Z)%nat.
Proof.
  unfold CLUST._MSHIFT_clust. intros E.
  match type of E with
  | rbind ?c _ = _ => destruct c as [bw|e] eqn:Eb; [|discriminate]
  end.
  cbn [rbind] in E. inversion E as [El]. clear E.
  set (lbls := meanshift_labels bw decision) in *.
  exists bw, lbls, (CLUST.mode_of lbls).
  assert (Hc : forall l m,
             count_occ Z.eq_dec (map (fun l => if Nat.eqb l m then 0%Z else 1%Z) l) 0%Z
               = count_occ Nat.eq_dec l m).
  { intros l m. induction l as [|a l IH]; [reflexivity|].
    cbn [map count_occ]. rewrite IH.
    destruct (Nat.eqb_spec a m) as [-> | Hne].
    - destruct (Z.eq_dec 0 0); [|congruence].
      destruct (Nat.eq_dec m m); [reflexivity | congruence].
    - destruct (Z.eq_dec 1 0); [discriminate|].
      destruct (Nat.eq_dec a m); [congruence | reflexivity]. }
  split; [reflexivity|]. split; [reflexivity|]. split; [apply Hc|].
  intros v. rewrite Hc. apply mode_of_most_frequent.
Qed.

End MshiftFacts.

Lemma mshift_largest_cluster_is_inlier_witness :
  exists (bw : npfloat) (lbls : list nat) (mode : nat),
    lbls = [1; 1; 1; 0; 0]%nat /\
    [0; 0; 0; 1; 1]%Z = map (fun l => if Nat.eqb l mode then 0%Z else 1%Z) lbls /\
    count_occ Z.eq_dec [0; 0; 0; 1; 1]%Z 0%Z = count_occ Nat.eq_dec lbls mode /\
    forall v, (count_occ Nat.eq_dec lbls v
                 <= count_occ Z.eq_dec [0; 0; 0; 1; 1]%Z 0%Z)%nat.
Proof.
  exact (@mshift_largest_cluster_is_inlier
           (fun _ _ => Ok (Fin (1 # 4))) (fun _ _ => [1; 1; 1; 0; 0]%nat)
           [0; 1 # 4; 1 # 2; 3 # 4; 1]%Q [0; 0; 0; 1; 1]%Z eq_refl).
Defined.

(** ** eb.py: the scan always binds a limit *)

Lemma Zsum_cutq d limit : Zsum (cutq d limit) = Z.of_nat (ones (cutq d limit)).
Proof. apply Zsum_binary. apply cut_binary. Qed.

(** A higher limit flags no more scores. *)
Lemma ones_cutq_mono d (b1 b2 : Q) :
  (b1 <= b2)%Q -> (ones (cutq d (Fin b2)) <= ones (cutq d (Fin b1)))%nat.
Proof.
  intros Hb. induction d as [|v d IH]; [apply Nat.le_refl|].
  rewrite !ones_cutq_cons. cbn [np_gtb].
  destruct (Qltb b2 v) eqn:E2.
  - apply Qltb_lt in E2.
    assert (E1 : Qltb b1 v = true)
      by (apply Qltb_lt; eapply Qle_lt_trans; eassumption).
    rewrite E1. lia.
  - destruct (Qltb b1 v); lia.
Qed.

(** A score at or below the limit is not flagged. *)
Lemma ones_cutq_spares d v (b : Q) :
  In v d -> (v <= b)%Q -> (ones (cutq d (Fin b)) < length d)%nat.
Proof.
  induction d as [|w d IH]; intros Hin Hv; [destruct Hin|].
  rewrite ones_cutq_cons. cbn [np_gtb length].
  destruct Hin as [-> | Hin].
  - apply Qltb_ge in Hv. rewrite Hv.
    pose proof (ones_cutq_le_length d (Fin b)). lia.
  - specialize (IH Hin Hv). destruct (Qltb b w); lia.
Qed.

Lemma inliers_count d e :
  EB.inliers d e
    = Z.of_nat (length d - ones (cutq d (Fin (EB.boundary e)))).
Proof.
  unfold EB.inliers. rewrite Zsum_cutq.
  pose proof (ones_cutq_le_length d (Fin (EB.boundary e))). lia.
Qed.

Lemma inliers_mono d e1 e2 :
  (EB.boundary e1 <= EB.boundary e2)%Q ->
  (EB.inliers d e1 <= EB.inliers d e2)%Z.
Proof.
  intros H. rewrite !inliers_count.
  pose proof (ones_cutq_mono d H).
  pose proof (ones_cutq_le_length d (Fin (EB.boundary e1))). lia.
Qed.

Lemma boundary_nonneg e : (0 <= e <= 1)%Q -> (0 <= EB.boundary e)%Q.
Proof.
  intros [H0 H1]. unfold EB.boundary. apply Qmult_le_0_compat.
  - unfold Qdiv. rewrite Qmult_1_l. apply Qinv_le_0_compat.
    apply Qle_trans with (1 + 0)%Q; [discriminate|].
    apply Qplus_le_r. exact H0.
  - unfold Qminus. rewrite <- (Qplus_opp_r e). apply Qplus_le_l. exact H1.
Qed.

Lemma median_ge c x :
  x <> [] -> Forall (fun v => (c <= v)%Q) x -> (c <= median x)%Q.
Proof.
  intros Hne Hx. unfold median.
  assert (Hs : Forall (fun v => (c <= v)%Q) (sort x))
    by (eapply Permutation_Forall; [apply sort_perm | exact Hx]).
  assert (Hn : (0 < length (sort x))%nat).
  { rewrite sort_length. destruct x; [congruence | simpl; lia]. }
  rewrite Forall_forall in Hs.
  assert (Hnth : forall i, (i < length (sort x))%nat -> (c <= nth i (sort x) 0)%Q).
  { intros i Hi. apply Hs. apply nth_In. exact Hi. }
  assert (Hhalf : (length (sort x) / 2 < length (sort x))%nat)
    by (apply Nat.div_lt; lia).
  destruct (Nat.even (length (sort x))).
  - apply Qle_shift_div_l; [reflexivity|].
    assert (H1 := Hnth (length (sort x) / 2 - 1)%nat).
    assert (H2 := Hnth (length (sort x) / 2)%nat Hhalf).
    specialize (H1 ltac:(lia)).
    setoid_replace (c * 2)%Q with (c + c)%Q by ring.
    apply Qplus_le_compat; assumption.
  - apply Hnth. exact Hhalf.
Qed.

Lemma round_half_even_ge k q :
  (inject_Z k <= q)%Q -> (k <= round_half_even q)%Z.
Proof.
  intros H. apply Qfloor_resp_le in H. rewrite Qfloor_Z in H.
  unfold round_half_even.
  destruct (Qltb _ _); [exact H|]. destruct (Qltb _ _); [lia|].
  destruct (Z.even _); lia.
Qed.

Section EbBound.
Variable rnd : list Q.

Definition eb_last : Q :=
  (0 + inject_Z (Z.of_nat (EB.samples - 1))
       * ((1 - 0) / Qofnat (EB.samples - 1)))%Q.

Lemma eb_last_in : In eb_last (linspace 0 1 EB.samples).
Proof.
  apply nth_error_In with (n := (EB.samples - 1)%nat).
  apply linspace_nth. unfold EB.samples. lia.
Qed.

Lemma eb_last_boundary : (EB.boundary eb_last == 0)%Q.
Proof. vm_compute. reflexivity. Qed.

(** X8.  [EB.eval] always binds its limit: on a valid input, with 5,000
    draws between 0 and 1, the eccentricity 1 at the end of the grid leaves
    at least one inlier and no more than any draw does, so its count is
    closer to the median than the initial 0 and the scan replaces the
    initial state at least once.  The call returns the cut at the threshold
    of one of the grid's eccentricities; it never ends in
    [UnboundLocalError]. *)
Theorem eb_limit_is_always_bound (decision d : list Q) (self : EB.t) :
  rbind (check_array decision) normalize = Ok d ->
  (EB.samples <= length rnd)%nat ->
  Forall (fun e => (0 <= e <= 1)%Q) (firstn EB.samples rnd) ->
  exists med e,
    EB.phase1 rnd d = Ok med /\
    In e (linspace 0 1 EB.samples) /\
    EB.eval rnd decision self =
      (EB.mk (Val (Fin (EB.boundary e))), Ok (cutq d (Fin (EB.boundary e)))).
Proof.
  intros Ed Hlen Hrnd.
  destruct (checked_normalize_inv decision Ed) as [En _].
  destruct (normalize_range _ En) as [_ (z & Hz & Ez)].
  set (counts := map (EB.inliers d) (firstn EB.samples rnd)).
  assert (Ep : EB.phase1 rnd d = Ok (EB.median_count counts)).
  { unfold EB.phase1, EB.sample_counts.
    destruct (Nat.ltb_spec (length rnd) EB.samples); [lia | reflexivity]. }
  set (c0 := EB.inliers d eb_last).
  assert (Hc0 : (1 <= c0)%Z).
  { unfold c0. rewrite inliers_count.
    assert (Hlt : (ones (cutq d (Fin (EB.boundary eb_last))) < length d)%nat).
    { apply ones_cutq_spares with (v := z); [exact Hz|].
      rewrite Ez, eb_last_boundary. apply Qle_refl. }
    lia. }
  assert (Hcounts : Forall (fun v => (inject_Z c0 <= v)%Q) (map inject_Z counts)).
  { apply Forall_forall. intros v Hv. apply in_map_iff in Hv.
    destruct Hv as (c & <- & Hc). apply in_map_iff in Hc.
    destruct Hc as (e & <- & He). rewrite <- Zle_Qle. apply inliers_mono.
    rewrite eb_last_boundary. apply boundary_nonneg.
    rewrite Forall_forall in Hrnd. apply Hrnd. exact He. }
  assert (Hne : map inject_Z counts <> []).
  { intros E. apply (f_equal (@length _)) in E.
    unfold counts in E. rewrite !length_map, length_firstn in E.
    change (length (@nil Q)) with 0%nat in E.
    assert (0 < EB.samples)%nat by (unfold EB.samples; lia). lia. }
  pose proof (@round_half_even_ge _ _ (median_ge Hne Hcounts)) as Hmed.
  set (m := round_half_even (median (map inject_Z counts))) in *.
  assert (Hdist : (eb_dist d (inject_Z m) eb_last < eb_dist_of (inject_Z m) 0)%Q).
  { unfold eb_dist, eb_dist_of. fold c0.
    assert (Q0 : (inject_Z 1 <= inject_Z c0)%Q) by (rewrite <- Zle_Qle; exact Hc0).
    assert (Qm : (inject_Z c0 <= inject_Z m)%Q) by (rewrite <- Zle_Qle; exact Hmed).
    change (inject_Z 1) with 1%Q in Q0. change (inject_Z 0) with 0%Q.
    rewrite !Qabs_pos; lra. }
  exists (inject_Z m).
  rewrite (eb_eval_unfold rnd decision self Ed Ep).
  unfold EB.median_count. fold m. unfold EB.scan.
  destruct (eb_scan_fold d (inject_Z m) (linspace 0 1 EB.samples) (0%Z, None))
    as [[_ Hall] | (i & e & Hn & Es & _)].
  - exfalso. specialize (Hall eb_last eb_last_in). cbn [fst] in Hall.
    exact (Qlt_not_le _ _ Hdist Hall).
  - exists e. split; [exact Ep|].
    split; [eapply nth_error_In; exact Hn|]. rewrite Es. reflexivity.
Qed.

End EbBound.

Lemma rnd_1234_in_range :
  (EB.samples <= length rnd_1234)%nat /\
  Forall (fun e => (0 <= e <= 1)%Q) (firstn EB.samples rnd_1234).
Proof.
  split.
  - apply Nat.leb_le. vm_compute. reflexivity.
  - apply Forall_forall. intros e He.
    assert (Hb : forallb (fun e => Qle_bool 0 e && Qle_bool e 1)
                         (firstn EB.samples rnd_1234) = true)
      by (vm_compute; reflexivity).
    rewrite forallb_forall in Hb. specialize (Hb e He).
    apply andb_prop in Hb. split; apply Qle_bool_iff; apply Hb.
Qed.

Lemma eb_limit_is_always_bound_witness :
  exists med e,
    EB.phase1 rnd_1234 evenly_spaced_normalized = Ok med /\
    In e (linspace 0 1 EB.samples) /\
    EB.eval rnd_1234 evenly_spaced EB.__init__ =
      (EB.mk (Val (Fin (EB.boundary e))),
       Ok (cutq evenly_spaced_normalized (Fin (EB.boundary e)))).
Proof.
  exact (@eb_limit_is_always_bound rnd_1234 evenly_spaced
           evenly_spaced_normalized EB.__init__ evenly_spaced_valid
           (proj1 rnd_1234_in_range) (proj2 rnd_1234_in_range)).
Defined.

(** ** mad.py: the threshold is never below the mean *)

Lemma Qsum_nonneg l : Forall (fun v => (0 <= v)%Q) l -> (0 <= Qsum l)%Q.
Proof.
  induction 1 as [|v l Hv _ IH]; [apply Qle_refl|].
  change (Qsum (v :: l)) with (v + Qsum l)%Q.
  setoid_replace 0%Q with (0 + 0)%Q by ring.
  apply Qplus_le_compat; assumption.
Qed.

Lemma Qofnat_pos n : (0 < n)%nat -> (0 < Qofnat n)%Q.
Proof.
  intros H. unfold Qofnat. change 0%Q with (inject_Z 0).
  rewrite <- Zlt_Qlt. lia.
Qed.

Lemma qmean_nonneg l :
  l <> [] -> Forall (fun v => (0 <= v)%Q) l -> (0 <= qmean l)%Q.
Proof.
  intros Hne Hl. unfold qmean. apply Qle_shift_div_l.
  - apply Qofnat_pos. destruct l; [congruence | simpl; lia].
  - rewrite Qmult_0_l. apply Qsum_nonneg. exact Hl.
Qed.

Lemma fold_max_in xs : forall acc,
  exists v, In v (acc :: xs) /\ (fold_left Qmax xs acc == v)%Q.
Proof.
  induction xs as [|w xs IH]; intros acc; cbn [fold_left].
  - exists acc. split; [left; reflexivity | reflexivity].
  - destruct (IH (Qmax acc w)) as (v & [<- | Hv] & Ev).
    + destruct (Q.max_spec acc w) as [[_ E] | [_ E]].
      * exists w. split; [right; left; reflexivity|]. rewrite Ev. exact E.
      * exists acc. split; [left; reflexivity|]. rewrite Ev. exact E.
    + exists v. split; [right; right; exact Hv | exact Ev].
Qed.

(** The greatest score is normalized to 1. *)
Lemma normalize_has_one x d :
  normalize x = Ok d -> exists v, In v d /\ (v == 1)%Q.
Proof.
  destruct x as [|x0 xs]; [discriminate|]. unfold normalize, qmax, qmin.
  set (lo := fold_left Qmin xs x0). set (hi := fold_left Qmax xs x0).
  destruct (Qeq_bool hi lo) eqn:E; [discriminate|]. intros Ed.
  inversion Ed; subst d; clear Ed.
  apply Qeq_bool_neq in E.
  destruct (fold_max_in xs x0) as (v & Hv & Ev). fold hi in Ev.
  exists ((v - lo) / (hi - lo))%Q. split.
  - change (In ((v - lo) / (hi - lo))%Q
               (map (fun v => ((v - lo) / (hi - lo))%Q) (x0 :: xs))).
    apply (in_map (fun v => ((v - lo) / (hi - lo))%Q)). exact Hv.
  - rewrite <- Ev. apply Qmult_inv_r. intros H. apply E.
    apply Qplus_inj_r with (z := (- lo)%Q). rewrite Qplus_opp_r. exact H.
Qed.

Lemma Qsum_ge_in l v :
  Forall (fun w => (0 <= w)%Q) l -> In v l -> (v <= Qsum l)%Q.
Proof.
  induction 1 as [|w l Hw Hl IH]; intros Hin; [destruct Hin|].
  change (Qsum (w :: l)) with (w + Qsum l)%Q.
  pose proof (Qsum_nonneg Hl) as Hs.
  destruct Hin as [-> | Hin]; [lra|]. specialize (IH Hin). lra.
Qed.

Lemma qmean_pos_normalized x d : normalize x = Ok d -> (0 < qmean d)%Q.
Proof.
  intros En. destruct (normalize_range _ En) as [Hr _].
  destruct (normalize_has_one _ En) as (v & Hv & Ev).
  assert (H0 : Forall (fun w => (0 <= w)%Q) d).
  { eapply Forall_impl; [|exact Hr]. intros w [Hw _]. exact Hw. }
  pose proof (@Qsum_ge_in _ _ H0 Hv) as Hs.
  unfold qmean. apply Qlt_shift_div_l.
  - apply Qofnat_pos. destruct d; [destruct Hv | simpl; lia].
  - rewrite Qmult_0_l. lra.
Qed.

Section MadFacts.
Context {N : Numeric}.

(** X9.  [MAD.eval] on a valid input, when [np.std] returns a positive
    deviation: the limit it stores and cuts at is the mean of the normalized
    scores plus the median of the absolute deviations from their median,
    divided by the standard deviation.  The mean is positive and the limit
    is never below it, so a score below the mean is never labelled 1 and the
    normalized minimum 0 is always left unflagged. *)
Theorem mad_limit_is_mean_plus_mad (decision d : list Q) (self : MAD.t) :
  rbind (check_array decision) normalize = Ok d ->
  (0 < std d)%Q ->
  let mad := median (map (fun v => Qabs (v - median d)) d) in
  let limit := (qmean d + mad / std d)%Q in
  MAD.eval decision self = (MAD.mk (Val (Fin limit)), Ok (cutq d (Fin limit))) /\
  (0 < qmean d)%Q /\ (qmean d <= limit)%Q /\
  (forall i v, nth_error d i = Some v -> (v < qmean d)%Q ->
     nth_error (cutq d (Fin limit)) i = Some 0%Z) /\
  (ones (cutq d (Fin limit)) < length d)%nat.
Proof.
  intros Ed Hstd mad limit.
  destruct (checked_normalize_inv decision Ed) as [En _].
  destruct (normalize_range _ En) as [Hr (z & Hz & Ez)].
  assert (Hne : d <> []) by (intros ->; destruct Hz).
  pose proof (qmean_pos_normalized _ En) as Hmean.
  assert (Hdev : (0 <= mad)%Q).
  { apply median_ge.
    - destruct d; [congruence | discriminate].
    - apply Forall_forall. intros v Hv. apply in_map_iff in Hv.
      destruct Hv as (w & <- & _). apply Qabs_nonneg. }
  assert (Hq : (0 <= mad / std d)%Q).
  { apply Qle_shift_div_l; [exact Hstd|]. rewrite Qmult_0_l. exact Hdev. }
  assert (Hlim : (qmean d <= limit)%Q) by (unfold limit; lra).
  split; [|split; [exact Hmean | split; [exact Hlim | split]]].
  - unfold MAD.eval, mbind, mlift, mput, mret. rewrite Ed.
    unfold MAD.median_abs_deviation. fold mad. cbn [np_div].
    assert (Zs : Qzero (std d) = false).
    { unfold Qzero. apply Bool.not_true_iff_false. intros H.
      apply Qeq_bool_iff in H. rewrite H in Hstd. discriminate. }
    rewrite Zs. reflexivity.
  - intros i v Ei Hv. unfold cutq.
    rewrite (@cut_nth _ (Fin limit) i (Fin v))
      by (rewrite nth_error_map, Ei; reflexivity).
    cbn [np_gtb]. assert (E : Qltb limit v = false) by (apply Qltb_ge; lra).
    rewrite E. reflexivity.
  - apply ones_cutq_spares with (v := z); [exact Hz|]. rewrite Ez. lra.
Qed.

End MadFacts.

Lemma mad_limit_is_mean_plus_mad_witness :
  let d := three_scores_normalized in
  let mad := median (map (fun v => Qabs (v - median d)) d) in
  let limit := (qmean d + mad / std (N := Ref.numeric) d)%Q in
  MAD.eval (N := Ref.numeric) three_scores MAD.__init__
    = (MAD.mk (Val (Fin limit)), Ok (cutq d (Fin limit))) /\
  (0 < qmean d)%Q /\ (qmean d <= limit)%Q /\
  (forall i v, nth_error d i = Some v -> (v < qmean d)%Q ->
     nth_error (cutq d (Fin limit)) i = Some 0%Z) /\
  (ones (cutq d (Fin limit)) < length d)%nat.
Proof.
  apply (@mad_limit_is_mean_plus_mad Ref.numeric three_scores
           three_scores_normalized MAD.__init__ three_scores_valid).
  vm_compute. reflexivity.
Defined.

(** ** fwfm.py: no peak, no outlier *)

Lemma cutq_none_flagged l (q : Q) :
  Forall (fun v => (v <= q)%Q) l -> cutq l (Fin q) = repeat 0%Z (length l).
Proof.
  induction 1 as [|v l Hv _ IH]; [reflexivity|].
  change (cutq (v :: l) (Fin q))
    with ((if np_gtb (Fin v) (Fin q) then 1%Z else 0%Z) :: cutq l (Fin q)).
  rewrite IH. cbn [np_gtb length repeat].
  apply Qltb_ge in Hv. rewrite Hv. reflexivity.
Qed.

Section FwfmFacts.
Variable density : list Q -> list Q -> list Q.
Variable base_widths : list Q -> list npfloat.

(** X10.  [FWFM.eval] when the density curve has no peak of prominence 0.75
    ([peak_widths] returns no width): the limit is the default 1.1, above
    every normalized score, so the call stores 1.1 and the normalized scores
    and labels every score 0. *)
Theorem fwfm_no_peak_flags_nothing (decision d val : list Q) (self : FWFM.t) :
  rbind (check_scores decision (FWFM.random_state self)) normalize = Ok d ->
  normalize (fst (AUCP.gen_kde density d (-1) 1 (length d * 3))) = Ok val ->
  base_widths val = [] ->
  FWFM.eval density base_widths decision self =
    (FWFM.mk (FWFM.random_state self) (Val (Fin 1.1)) (Some d),
     Ok (repeat 0%Z (length decision))).
Proof.
  intros Ed Ev Ew.
  assert (En : normalize decision = Ok d)
    by (apply (checked_normalize_inv decision); exact Ed).
  destruct (normalize_range _ En) as [Hr _].
  unfold FWFM.eval, mbind, mlift, mput, mget, mret. rewrite Ed.
  destruct (AUCP.gen_kde density d (-1) 1 (length d * 3)) as [v g].
  cbn [fst] in Ev. rewrite Ev, Ew.
  rewrite cutq_none_flagged.
  - rewrite (normalize_length decision En). reflexivity.
  - eapply Forall_impl; [|exact Hr]. intros w [_ Hw].
    eapply Qle_trans; [exact Hw | discriminate].
Qed.

End FwfmFacts.

Lemma fwfm_no_peak_flags_nothing_witness :
  FWFM.eval triangular_density (fun _ => []) three_scores (FWFM.__init__ None) =
    (FWFM.mk None (Val (Fin 1.1)) (Some three_scores_normalized),
     Ok (repeat 0%Z (length three_scores))).
Proof.
  refine (@fwfm_no_peak_flags_nothing triangular_density (fun _ => [])
            three_scores three_scores_normalized
            (match normalize (fst (AUCP.gen_kde triangular_density
                      three_scores_normalized (-1) 1
                      (length three_scores_normalized * 3)))
             with Ok v => v | Raise _ => [] end)
            (FWFM.__init__ None) three_scores_valid _ eq_refl).
  vm_compute. reflexivity.
Defined.

(** ** filter.py: a call does not depend on the calls before it *)

Section FilterFrame.
Context {N : Numeric}.
Variable apply : FILTER.scipy_filter -> list Q -> result (list npfloat).

Lemma filter_method_funcs_set_thresh self v d sig :
  FILTER.method_funcs apply (FILTER.set_thresh_ self v) d sig
    = FILTER.method_funcs apply self d sig.
Proof. reflexivity. Qed.

(** What a call leaves behind: the instance itself, or the instance with a
    new [thresh_]. *)
Lemma filter_eval_state decision self :
  fst (FILTER.eval apply decision self) = self \/
  exists v, fst (FILTER.eval apply decision self) = FILTER.set_thresh_ self v.
Proof.
  unfold FILTER.eval, mbind, mlift, mput, mget, mret.
  destruct (rbind (check_array decision) normalize) as [d|e]; [|left; reflexivity].
  destruct (FILTER.method_funcs apply self d _) as [fltr|e]; [|left; reflexivity].
  destruct (np_max fltr) as [limit|e]; [|left; reflexivity].
  right. exists (Val limit). reflexivity.
Qed.

(** The outcome of a call is the same whatever [thresh_] holds. *)
Lemma filter_eval_set_thresh decision self v :
  snd (FILTER.eval apply decision (FILTER.set_thresh_ self v))
    = snd (FILTER.eval apply decision self) /\
  (forall labels, snd (FILTER.eval apply decision self) = Ok labels ->
     FILTER.eval apply decision (FILTER.set_thresh_ self v)
       = FILTER.eval apply decision self).
Proof.
  unfold FILTER.eval, mbind, mlift, mput, mget, mret.
  destruct (rbind (check_array decision) normalize) as [d|e];
    [|split; [reflexivity | discriminate]].
  cbn [FILTER.sigma FILTER.set_thresh_].
  rewrite filter_method_funcs_set_thresh.
  destruct (FILTER.method_funcs apply self d _) as [fltr|e];
    [|split; [reflexivity | discriminate]].
  destruct (np_max fltr) as [limit|e]; [|split; [reflexivity | discriminate]].
  split; [reflexivity | intros _ _; reflexivity].
Qed.

(** X11.  [FILTER.eval] does not depend on the calls made before it on the
    same instance.  A call, whether it returns or raises, leaves [method]
    and [sigma] as they were (the scale derived from ['auto'] stays in a
    local variable), and the only attribute it writes, [thresh_], is never
    read: a second call returns or raises exactly what it would on the
    instance as constructed, and when it returns it leaves the instance in
    the same state. *)
Theorem filter_eval_ignores_history (first second : list Q) (self : FILTER.t) :
  let after := fst (FILTER.eval apply first self) in
  FILTER.method_ after = FILTER.method_ self /\
  FILTER.sigma after = FILTER.sigma self /\
  snd (FILTER.eval apply second after) = snd (FILTER.eval apply second self) /\
  (forall labels, snd (FILTER.eval apply second self) = Ok labels ->
     FILTER.eval apply second after = FILTER.eval apply second self).
Proof.
  intros after. unfold after.
  destruct (filter_eval_state first self) as [-> | [v ->]].
  - split; [reflexivity|]. split; [reflexivity|]. split; [reflexivity|].
    intros labels _. reflexivity.
  - split; [reflexivity|]. split; [reflexivity|].
    exact (filter_eval_set_thresh second self v).
Qed.

End FilterFrame.

(** ** meta.py: the label is the majority vote of the retained runs *)

Lemma better_spec l a b :
  META.better l a b = true <->
  (count_occ Z.eq_dec l b < count_occ Z.eq_dec l a)%nat \/
  (count_occ Z.eq_dec l b = count_occ Z.eq_dec l a /\ (a < b)%Z).
Proof.
  unfold META.better. rewrite Bool.orb_true_iff, Bool.andb_true_iff.
  rewrite Nat.ltb_lt, Nat.eqb_eq, Z.ltb_lt. reflexivity.
Qed.

(** The fold keeps an element that none of the values seen is better than. *)
Lemma mode_fold l : forall l' a,
  let r := fold_left (fun best v => if META.better l v best then v else best) l' a in
  In r (a :: l') /\ forall v, In v (a :: l') -> META.better l v r = false.
Proof.
  induction l' as [|w l' IH]; intros a; cbn [fold_left].
  - split; [left; reflexivity|]. intros v [<- | []].
    apply Bool.not_true_iff_false. rewrite better_spec. lia.
  - destruct (META.better l w a) eqn:E.
    + destruct (IH w) as [Hin Hb]. split; [right; exact Hin|].
      intros v [<- | Hv]; [|apply Hb; exact Hv].
      specialize (Hb w (or_introl eq_refl)).
      apply Bool.not_true_iff_false in Hb. rewrite better_spec in Hb.
      apply better_spec in E.
      apply Bool.not_true_iff_false. rewrite better_spec. lia.
    + destruct (IH a) as [Hin Hb]. split.
      * destruct Hin as [<- | Hin]; [left; reflexivity | right; right; exact Hin].
      * intros v [<- | [<- | Hv]].
        -- apply Hb. left. reflexivity.
        -- specialize (Hb a (or_introl eq_refl)).
           apply Bool.not_true_iff_false in Hb. rewrite better_spec in Hb.
           apply Bool.not_true_iff_false in E. rewrite better_spec in E.
           apply Bool.not_true_iff_false. rewrite better_spec. lia.
        -- apply Hb. right. exact Hv.
Qed.

Lemma mode_spec l :
  l <> [] ->
  In (META.mode l) l /\
  forall v, In v l ->
    (count_occ Z.eq_dec l v <= count_occ Z.eq_dec l (META.mode l))%nat /\
    (count_occ Z.eq_dec l v = count_occ Z.eq_dec l (META.mode l) ->
     (META.mode l <= v)%Z).
Proof.
  destruct l as [|a l']; [congruence|]. intros _.
  unfold META.mode. destruct (mode_fold (a :: l') l' a) as [Hin Hb].
  split; [exact Hin|]. intros v Hv. specialize (Hb v Hv).
  apply Bool.not_true_iff_false in Hb. rewrite better_spec in Hb. lia.
Qed.

(** On votes in {0, 1} the mode is 1 exactly on a strict majority of 1s. *)
Lemma mode_binary l :
  l <> [] -> Forall binary l ->
  META.mode l =
    (if (count_occ Z.eq_dec l 0%Z <? count_occ Z.eq_dec l 1%Z)%nat
     then 1 else 0)%Z.
Proof.
  intros Hne Hb. destruct (mode_spec Hne) as [Hin Hm].
  rewrite Forall_forall in Hb.
  destruct (Nat.ltb_spec (count_occ Z.eq_dec l 0%Z) (count_occ Z.eq_dec l 1%Z))
    as [Hlt | Hge]; destruct (Hb _ Hin) as [E | E]; try exact E; exfalso.
  - assert (H1 : In 1%Z l) by (apply (count_occ_In Z.eq_dec); lia).
    destruct (Hm _ H1) as [Hle _]. rewrite E in Hle. lia.
  - assert (H1 : In 1%Z l) by (rewrite <- E; exact Hin).
    apply (count_occ_In Z.eq_dec) in H1.
    assert (H0 : In 0%Z l) by (apply (count_occ_In Z.eq_dec); lia).
    destruct (Hm _ H0) as [Hle Heq]. rewrite E in Hle, Heq. lia.
Qed.

Lemma column_modes_nth contam n j :
  contam <> [] -> (j < n)%nat ->
  nth j (META.column_modes contam n) 0%Z
    = META.mode (map (fun row => nth j row 0%Z) contam).
Proof.
  intros Hne Hj. unfold META.column_modes.
  destruct contam as [|r c]; [congruence|].
  set (f := fun j => META.mode (map (fun row => nth j row 0%Z) (r :: c))).
  rewrite (nth_indep _ 0%Z (f n)) by (rewrite length_map, length_seq; exact Hj).
  rewrite (map_nth f (seq 0 n) n j). rewrite seq_nth by exact Hj. reflexivity.
Qed.

Lemma retained_in (predict : list Q -> Z -> list Z) d row :
  In row (META.retained predict d) -> exists g, predict d g = row.
Proof.
  unfold META.retained. intros H.
  pose proof (proj1 (filter_In _ _ _) H) as [Hmap _].
  destruct (proj1 (in_map_iff _ _ _) Hmap) as (g & E & _).
  exists g. exact E.
Qed.

Section MetaFacts.
Variable load : META.model_name -> result (list Q -> Z -> list Z).

(** X12.  [META.eval] when the model file loads, every prediction is a
    vector of 0s and 1s and at least one of the 380 runs has an outlier
    ratio strictly between 0 and one half: the call stores [None] as the
    threshold and returns one label per score; the label of a score is 1
    exactly when strictly more of the retained runs flag it than not, a tie
    giving 0. *)
Theorem meta_label_is_majority_vote
  (decision d : list Q) (self : META.t) (model : list Q -> Z -> list Z) :
  rbind (check_array decision) normalize = Ok d ->
  load (META.method_ self) = Ok model ->
  (forall g, Forall binary (model d g)) ->
  META.retained model d <> [] ->
  exists lbls,
    META.eval load decision self =
      (META.mk (META.method_ self) PyNone, Ok lbls) /\
    length lbls = length decision /\
    forall j, (j < length decision)%nat ->
      let votes := map (fun row => nth j row 0%Z) (META.retained model d) in
      nth j lbls 0%Z =
        (if (count_occ Z.eq_dec votes 0%Z <? count_occ Z.eq_dec votes 1%Z)%nat
         then 1 else 0)%Z.
Proof.
  intros Ed El Hbin Hne.
  assert (En : normalize decision = Ok d)
    by (apply (checked_normalize_inv decision); exact Ed).
  pose proof (normalize_length decision En) as Hlen.
  exists (META.column_modes (META.retained model d) (length d)).
  split; [|split].
  - unfold META.eval, mbind, mlift, mput, mget, mret. rewrite Ed, El. reflexivity.
  - unfold META.column_modes. destruct (META.retained model d); [congruence|].
    rewrite length_map, length_seq. exact Hlen.
  - intros j Hj votes. rewrite <- Hlen in Hj.
    rewrite (column_modes_nth Hne Hj). apply mode_binary.
    + unfold votes. destruct (META.retained model d); [congruence | discriminate].
    + unfold votes. apply Forall_forall. intros v Hv. apply in_map_iff in Hv.
      destruct Hv as (row & <- & Hrow).
      destruct (retained_in _ _ _ Hrow) as (g & <-).
      specialize (Hbin g). rewrite Forall_forall in Hbin.
      destruct (nth_in_or_default j (model d g) 0%Z) as [Hi | ->].
      * apply Hbin. exact Hi.
      * left. reflexivity.
Qed.

End MetaFacts.

(** A stand-in model: the even groups flag the scores above one half, the
    odd groups the scores above one fifth. *)
Definition two_level_model (d : list Q) (g : Z) : list Z :=
  if Z.even g then cutq d (Fin (1 # 2)) else cutq d (Fin (1 # 5)).

Lemma meta_label_is_majority_vote_witness :
  exists lbls,
    META.eval (fun _ => Ok two_level_model) three_scores (META.__init__ META.GNB) =
      (META.mk META.GNB PyNone, Ok lbls) /\
    length lbls = length three_scores /\
    forall j, (j < length three_scores)%nat ->
      let votes := map (fun row => nth j row 0%Z)
                       (META.retained two_level_model three_scores_normalized) in
      nth j lbls 0%Z =
        (if (count_occ Z.eq_dec votes 0%Z <? count_occ Z.eq_dec votes 1%Z)%nat
         then 1 else 0)%Z.
Proof.
  apply (@meta_label_is_majority_vote (fun _ => Ok two_level_model)
           three_scores three_scores_normalized (META.__init__ META.GNB)
           two_level_model three_scores_valid eq_refl).
  - intros g. unfold two_level_model. destruct (Z.even g); apply cut_binary.
  - vm_compute. discriminate.
Defined.
